(** * Tap Tycoon server: referral ledger, save store and the in-memory variant

    A shallow embedding of the request handlers of the four revisions of the
    server:

    - [Ledger]    the PostgreSQL revision (index.js): the bot's [/start <code>]
                  handler, [GET /my-referrals/:userId] and
                  [POST /claim-rewards].  The two SQLite revisions run the same
                  three statements.
    - [SaveStore] the SQLite revision with cloud saves: [GET /load/:userId]
                  and [POST /save].
    - [InMemory]  the first revision (server.js), which keeps everything in the
                  object [referralsDB]: [POST /referral], [GET /rewards/:userId]
                  and [POST /claim].

    A handler is a function from the store before the request to the store
    after it and the reply.  The storage engine is taken to execute one
    statement at a time and not to lose its connection; what it makes of a
    bound parameter is a parameter of the development ([bind]).  Console
    output is not modelled: the log lines format the ids of a request with
    template literals, which do not throw on the values that [plain]
    describes. *)

From Stdlib Require Import ZArith String List Bool Lia DecimalString.
From stdpp Require Import base option list strings gmap.

Set Warnings "-register-all".

Local Open Scope string_scope.
Local Open Scope list_scope.
Local Open Scope Z_scope.

(** ** JavaScript values

    The values that reach a handler: fields of a JSON body, route parameters
    (always strings) and the sender id of a Telegram message (a number, by
    the Bot API one that [safe_integer] below admits).  A
    field that the body does not have reads as [JUndefined].  Numbers are
    integers here: the handlers test a number against zero, turn it into a
    string or hand it to the storage engine, nothing else.  An object is the
    list of its own properties, as [JSON.parse] creates them. *)

Inductive jsval : Type :=
| JUndefined
| JNull
| JBool (b : bool)
| JNum (n : Z)
| JStr (s : string)
| JArr (items : list jsval)
| JObj (fields : list (string * jsval)).

(** [!v] is [negb (truthy v)]. *)
Definition truthy (v : jsval) : bool :=
  match v with
  | JUndefined | JNull => false
  | JBool b => b
  | JNum n => negb (n =? 0)
  | JStr s => negb (String.eqb s "")
  | JArr _ | JObj _ => true
  end.

(** The decimal numeral of [n], which is [String(n)] for the integers that
    [safe_integer] admits. *)
Definition decimal (n : Z) : string := NilZero.string_of_int (Z.to_int n).

(** [Number.isSafeInteger(n)]: the integers that a JSON body or a Telegram
    id delivers exactly and that JavaScript prints as their decimal
    numeral. *)
Definition safe_integer (n : Z) : bool :=
  (- (2 ^ 53 - 1) <=? n) && (n <=? 2 ^ 53 - 1).

(** [String(v)], which is also how [v] is turned into a property key, for
    the values of [plain] below. *)
Fixpoint js_to_string (v : jsval) : string :=
  match v with
  | JUndefined => "undefined"
  | JNull => "null"
  | JBool true => "true"
  | JBool false => "false"
  | JNum n => decimal n
  | JStr s => s
  | JArr items =>
      (fix join (l : list jsval) : string :=
         match l with
         | [] => ""
         | x :: rest =>
             let here := match x with
                         | JUndefined | JNull => ""
                         | _ => js_to_string x
                         end in
             match rest with
             | [] => here
             | _ => (here ++ "," ++ join rest)%string
             end
         end) items
  | JObj _ => "[object Object]"
  end.

(** The values on which [String(v)], a template literal and a property
    access [o[v]] return [js_to_string v]: a number is a safe integer, an
    object has no own property [toString] (with one, which a JSON body can
    only fill with a value that is no function, the conversion throws a
    TypeError), and an array holds such values. *)
Fixpoint plain (v : jsval) : bool :=
  match v with
  | JUndefined | JNull | JBool _ | JStr _ => true
  | JNum n => safe_integer n
  | JArr items => forallb plain items
  | JObj fields => negb (existsb (fun f => String.eqb (fst f) "toString") fields)
  end.

(** [REFERRER_REWARD], the same in every SQL revision. *)
Record reward : Type := { money : Z; gems : Z }.

Definition REFERRER_REWARD : reward := {| money := 50000; gems := 5 |}.

(** [{ money: n * REFERRER_REWARD.money, gems: n * REFERRER_REWARD.gems }] *)
Definition reward_for (n : Z) : reward :=
  {| money := n * money REFERRER_REWARD; gems := n * gems REFERRER_REWARD |}.

(** ** The referral ledger (index.js)

    Keys are integers, as the BIGINT columns of this revision and the INTEGER
    columns of the first SQLite revision hold them.  Only equality of keys is
    ever used, and [bind] is arbitrary, so the TEXT columns of the second
    SQLite revision are covered by any [bind] that numbers its strings. *)

Module Ledger.

(** The [status] column: the default ['pending'] and the ['claimed'] that the
    claim statement writes are the only values it ever holds. *)
Inductive status_t : Type := pending | claimed.

#[global] Instance status_eq_dec : EqDecision status_t.
Proof. solve_decision. Defined.

(** A row of the table [referrals]. *)
Record referral : Type := {
  id : Z;
  referrer_id : Z;
  referred_id : Z;
  status : status_t;
  created_at : Z
}.

(** The three statements the handlers send, with their parameters as bound. *)
Inductive statement : Type :=
| InsertReferral (referrerId referredId : jsval)
| SelectStatus (userId : jsval)
| UpdateClaimed (userId : jsval).

(** The database: the table, the sequence behind [id SERIAL], and the
    statements sent so far (oldest first). *)
Record db : Type := {
  referrals : list referral;
  referrals_id_seq : Z;
  sent : list statement
}.

Definition initial : db := {| referrals := []; referrals_id_seq := 1; sent := [] |}.

Definition send (q : statement) (d : db) : db :=
  {| referrals := referrals d; referrals_id_seq := referrals_id_seq d; sent := sent d ++ [q] |}.

(** [WHERE referrer_id = k] and [WHERE referrer_id = k AND status = 'pending'] *)
Definition owned_by (k : Z) (r : referral) : Prop := referrer_id r = k.

Definition claimable (k : Z) (r : referral) : Prop :=
  referrer_id r = k /\ status r = pending.

#[global] Instance owned_by_dec k r : Decision (owned_by k r).
Proof. unfold owned_by. apply _. Defined.

#[global] Instance claimable_dec k r : Decision (claimable k r).
Proof. unfold claimable. apply _. Defined.

Definition set_claimed (r : referral) : referral :=
  {| id := id r; referrer_id := referrer_id r; referred_id := referred_id r;
     status := claimed; created_at := created_at r |}.

(** The UPDATE on one row. *)
Definition claim_row (k : Z) (r : referral) : referral :=
  if decide (claimable k r) then set_claimed r else r.

(** The column [referred_id], and the first record under [k] with its
    referrer, if there is one. *)
Definition referred_ids (d : db) : list Z := map referred_id (referrals d).

Definition referral_of (k : Z) (d : db) : option referral :=
  head (filter (fun r => referred_id r = k) (referrals d)).

Definition referrer_of (k : Z) (d : db) : option Z :=
  option_map referrer_id (referral_of k d).

(** How many records [k] owns, and how many of them are pending. *)
Definition invited (k : Z) (d : db) : nat := length (filter (owned_by k) (referrals d)).

Definition unclaimed (k : Z) (d : db) : nat := length (filter (claimable k) (referrals d)).

(** The rows before and after a claim for [a]: the same row, or the same row
    with [pending] turned into [claimed] when [a] owns it. *)
Definition claimed_for (a : option Z) (r r' : referral) : Prop :=
  id r' = id r /\ referrer_id r' = referrer_id r /\ referred_id r' = referred_id r /\
  created_at r' = created_at r /\
  (r' = r \/ (a = Some (referrer_id r) /\ status r = pending /\ status r' = claimed)).

(** What the bot's [/start <code>] handler did. *)
Inductive bot_outcome : Type :=
| Dropped                    (* the self-referral guard returned *)
| Welcomed (chat : Z)        (* a row was inserted, the welcome message sent *)
| ExistingUser               (* rowCount was 0 *)
| InsertFailed.              (* the query threw, the catch block logged it *)

(** Bodies of the HTTP replies. *)
Inductive body : Type :=
| StatsJson (friendsInvited unclaimedCount : Z) (unclaimedReward : reward)
| ClaimJson (claimedCount : Z) (rewards : reward)
| ErrorJson (error : string).

Record response : Type := { code : Z; json : body }.

(** What arrives at the server, and what goes back. *)
Inductive request : Type :=
| Start (now from_id : Z) (code : string)
| MyReferrals (userId : string)
| ClaimRewards (userId : jsval).

Inductive reply : Type :=
| Bot (o : bot_outcome)
| Http (r : response).

(** [claimedCount] of a reply, 0 when it has none. *)
Definition claimed_count (rp : reply) : Z :=
  match rp with
  | Http {| json := ClaimJson n _ |} => n
  | _ => 0
  end.

Section Engine.

(** What the engine makes of a parameter bound to a BIGINT column: a key, or
    [None] when it refuses the value and the query throws. *)
Variable bind : jsval -> option Z.

(** [INSERT INTO referrals (referrer_id, referred_id) VALUES ($1, $2)
     ON CONFLICT (referred_id) DO NOTHING] at time [now].  The result is
    [rowCount], or [None] when the query throws.  The sequence is advanced
    before the conflict is seen. *)
Definition insert_referral (now : Z) (p1 p2 : jsval) (d : db) : db * option Z :=
  let d := send (InsertReferral p1 p2) d in
  match bind p1, bind p2 with
  | Some kr, Some kd =>
      let fresh := referrals_id_seq d in
      if decide (kd ∈ referred_ids d)
      then ({| referrals := referrals d; referrals_id_seq := fresh + 1; sent := sent d |},
            Some 0)
      else ({| referrals := referrals d ++
                 [{| id := fresh; referrer_id := kr; referred_id := kd;
                     status := pending; created_at := now |}];
               referrals_id_seq := fresh + 1; sent := sent d |},
            Some 1)
  | _, _ => (d, None)
  end.

(** [SELECT status FROM referrals WHERE referrer_id = $1]: the rows. *)
Definition select_status (p : jsval) (d : db) : db * option (list status_t) :=
  let d := send (SelectStatus p) d in
  match bind p with
  | Some k => (d, Some (map status (filter (owned_by k) (referrals d))))
  | None => (d, None)
  end.

(** [UPDATE referrals SET status = 'claimed'
     WHERE referrer_id = $1 AND status = 'pending']: [rowCount]. *)
Definition update_claimed (p : jsval) (d : db) : db * option Z :=
  let d := send (UpdateClaimed p) d in
  match bind p with
  | Some k =>
      ({| referrals := map (claim_row k) (referrals d);
          referrals_id_seq := referrals_id_seq d; sent := sent d |},
       Some (Z.of_nat (length (filter (claimable k) (referrals d)))))
  | None => (d, None)
  end.

(** [bot.onText(/\/start (.+)/, ...)]: [from_id] is [msg.from.id], [code] is
    [match[1]]. *)
Definition on_start (now from_id : Z) (code : string) (d : db) : db * bot_outcome :=
  let referredId := JNum from_id in
  let referrerId := JStr code in
  if String.eqb (js_to_string referredId) (js_to_string referrerId) then (d, Dropped)
  else
    match insert_referral now referrerId referredId d with
    | (d', Some rowCount) =>
        if 0 <? rowCount then (d', Welcomed from_id) else (d', ExistingUser)
    | (d', None) => (d', InsertFailed)
    end.

(** [app.get('/my-referrals/:userId', ...)] *)
Definition my_referrals (userId : string) (d : db) : db * response :=
  match select_status (JStr userId) d with
  | (d', Some rows) =>
      let unclaimedCount :=
        Z.of_nat (length (filter (fun s => s = pending) rows)) in
      (d', {| code := 200;
              json := StatsJson (Z.of_nat (length rows)) unclaimedCount
                                (reward_for unclaimedCount) |})
  | (d', None) => (d', {| code := 500; json := ErrorJson "Database query failed" |})
  end.

(** [app.post('/claim-rewards', ...)]: [userId] is [req.body.userId].  The
    line that logs the request between the check and the statement formats
    [userId] with a template literal, which returns for every [plain]
    value; an object on which it throws is none an engine of these
    revisions reads as a key. *)
Definition claim_rewards (userId : jsval) (d : db) : db * response :=
  if negb (truthy userId)
  then (d, {| code := 400; json := ErrorJson "userId is required" |})
  else
    match update_claimed userId d with
    | (d', Some rowCount) =>
        (d', {| code := 200; json := ClaimJson rowCount (reward_for rowCount) |})
    | (d', None) => (d', {| code := 500; json := ErrorJson "Database update failed" |})
    end.

(** One request, handled. *)
Definition handle (rq : request) (d : db) : db * reply :=
  match rq with
  | Start now from_id code => let (d', o) := on_start now from_id code d in (d', Bot o)
  | MyReferrals userId => let (d', r) := my_referrals userId d in (d', Http r)
  | ClaimRewards userId => let (d', r) := claim_rewards userId d in (d', Http r)
  end.

(** The requests of [rqs] handled in order, one at a time, with the replies. *)
Fixpoint run (rqs : list request) (d : db) : db * list reply :=
  match rqs with
  | [] => (d, [])
  | rq :: rest =>
      let (d1, r) := handle rq d in
      let (d2, rs) := run rest d1 in
      (d2, r :: rs)
  end.

(** Reading a run: [credited k rq rp] when [rq] was a [/start] whose code the
    engine reads as [k] and whose reply [rp] says a row was inserted;
    [credits] counts them; [claims_for k rq] when [rq] is a claim for [k]. *)
Definition credited (k : Z) (rq : request) (rp : reply) : bool :=
  match rq, rp with
  | Start _ _ code, Bot (Welcomed _) => bool_decide (bind (JStr code) = Some k)
  | _, _ => false
  end.

Fixpoint credits (k : Z) (rqs : list request) (rps : list reply) : nat :=
  match rqs, rps with
  | rq :: rqs', rp :: rps' =>
      ((if credited k rq rp then 1 else 0) + credits k rqs' rps')%nat
  | _, _ => 0%nat
  end.

Definition claims_for (k : Z) (rq : request) : bool :=
  match rq with
  | ClaimRewards userId => bool_decide (bind userId = Some k)
  | _ => false
  end.

(** A [/start] that does not spell the sender's own id in another way: if
    the engine reads the code and the sender's id as the same key, the code
    is the text of the id. *)
Definition canonical_code (rq : request) : Prop :=
  match rq with
  | Start _ from_id code =>
      forall k, bind (JStr code) = Some k -> bind (JNum from_id) = Some k ->
                code = js_to_string (JNum from_id)
  | _ => True
  end.

(** The sum of the [claimedCount]s of a run. *)
Definition total_claimed (rps : list reply) : Z :=
  fold_right Z.add 0 (map claimed_count rps).

(** The sum of the [claimedCount]s answered to the claims for [k]. *)
Fixpoint claimed_by (k : Z) (rqs : list request) (rps : list reply) : Z :=
  match rqs, rps with
  | rq :: rqs', rp :: rps' =>
      (if claims_for k rq then claimed_count rp else 0) + claimed_by k rqs' rps'
  | _, _ => 0
  end.

End Engine.

(** A row [r] as it is found later, [r']: nothing but [status] may differ,
    and a claimed row is still claimed. *)
Definition kept (r r' : referral) : Prop :=
  id r' = id r /\ referrer_id r' = referrer_id r /\ referred_id r' = referred_id r /\
  created_at r' = created_at r /\ (status r = claimed -> status r' = claimed).

End Ledger.

(** ** The [/start] handler of the second SQLite revision

    Its columns are TEXT, and it turns both ids into strings before it
    compares and binds them. *)

Module SqliteLedger.

Import Ledger.

(** What the handler of the second SQLite revision logs; it sends no
    message. *)
Inductive start_log : Type :=
| Skipped                    (* the guard returned *)
| Recorded                   (* this.changes > 0 *)
| AlreadyReferred            (* this.changes = 0 *)
| Errored.                   (* err *)

Section Engine.

Variable bind : jsval -> option Z.

(** [INSERT OR IGNORE INTO referrals (referrer_id, referred_id) VALUES (?, ?)]
    at time [now]: [this.changes], or [None] for [err].  The
    [AUTOINCREMENT] id is drawn before the UNIQUE constraint is checked, so
    an ignored insert uses one up as well. *)
Definition insert_or_ignore (now : Z) (p1 p2 : jsval) (d : db) : db * option Z :=
  let d := send (InsertReferral p1 p2) d in
  match bind p1, bind p2 with
  | Some kr, Some kd =>
      let d' := {| referrals := referrals d;
                   referrals_id_seq := referrals_id_seq d + 1; sent := sent d |} in
      if decide (kd ∈ referred_ids d)
      then (d', Some 0)
      else ({| referrals := referrals d ++
                 [{| id := referrals_id_seq d; referrer_id := kr; referred_id := kd;
                     status := pending; created_at := now |}];
               referrals_id_seq := referrals_id_seq d'; sent := sent d' |},
            Some 1)
  | _, _ => (d, None)
  end.

(** The second SQLite revision: [referredId = String(msg.from.id)],
    [referrerId = String(match[1])], compared with [===]. *)
Definition on_start_v2 (now from_id : Z) (code : string) (d : db) : db * start_log :=
  let referredId := JStr (js_to_string (JNum from_id)) in
  let referrerId := JStr (js_to_string (JStr code)) in
  if String.eqb (js_to_string referredId) (js_to_string referrerId) then (d, Skipped)
  else
    match insert_or_ignore now referrerId referredId d with
    | (d', None) => (d', Errored)
    | (d', Some changes) =>
        if 0 <? changes then (d', Recorded) else (d', AlreadyReferred)
    end.

End Engine.

End SqliteLedger.

(** ** The save store (the SQLite revision with [user_saves]) *)

Module SaveStore.

(** A row of [user_saves]; [user_id] is the TEXT primary key. *)
Record user_save : Type := {
  user_id : string;
  game_state : string;
  last_saved : Z
}.

Inductive statement : Type :=
| SelectGameState (userId : jsval)
| InsertOrReplace (userId : jsval) (gameStateJson : string).

Record db : Type := {
  user_saves : list user_save;
  sent : list statement
}.

Definition initial : db := {| user_saves := []; sent := [] |}.

Definition send (q : statement) (d : db) : db :=
  {| user_saves := user_saves d; sent := sent d ++ [q] |}.

(** Bodies of the replies.  [SavedState v] is [res.json(v)] of a parsed
    [game_state]. *)
Inductive body : Type :=
| SavedState (gameState : jsval)
| MessageJson (message : string)
| SuccessJson (success : bool) (message : string)
| ErrorJson (error : string)
| ParserError (message : string).   (* not JSON: Express's default error page *)

(** A handler answers, or throws inside the database callback, where nothing
    catches it. *)
Inductive outcome : Type :=
| Respond (code : Z) (json : body)
| Uncaught.

(** [express.json({ limit: '500kb' })]: 500 * 1024 bytes. *)
Definition body_limit : Z := 512000.

Section Engine.

(** What the engine makes of a parameter bound to the TEXT key column. *)
Variable bind : jsval -> option string.

(** [JSON.stringify] and [JSON.parse] ([None]: it throws). *)
Variable JSON_stringify : jsval -> string.
Variable JSON_parse : string -> option jsval.

(** [db.get("SELECT game_state FROM user_saves WHERE user_id = ?", [userId])]:
    the first matching row, [undefined] when there is none. *)
Definition select_game_state (p : jsval) (d : db) : db * option (option user_save) :=
  let d := send (SelectGameState p) d in
  match bind p with
  | Some k => (d, Some (head (filter (fun r => user_id r = k) (user_saves d))))
  | None => (d, None)
  end.

(** [INSERT OR REPLACE INTO user_saves (user_id, game_state, last_saved)
     VALUES (?, ?, CURRENT_TIMESTAMP)]: the rows with that key are deleted
    and the new one is inserted.  [None]: the statement failed. *)
Definition insert_or_replace (now : Z) (p : jsval) (gameStateJson : string) (d : db)
  : db * option unit :=
  let d := send (InsertOrReplace p gameStateJson) d in
  match bind p with
  | Some k =>
      ({| user_saves := filter (fun r => user_id r <> k) (user_saves d) ++
            [{| user_id := k; game_state := gameStateJson; last_saved := now |}];
          sent := sent d |},
       Some tt)
  | None => (d, None)
  end.

(** [app.get('/load/:userId', ...)] *)
Definition load (userId : string) (d : db) : db * outcome :=
  if negb (truthy (JStr userId))
  then (d, Respond 400 (ErrorJson "User ID is required."))
  else
    match select_game_state (JStr userId) d with
    | (d', None) => (d', Respond 500 (ErrorJson "Database query failed"))
    | (d', Some row) =>
        match row with
        | Some r =>
            if truthy (JStr (game_state r))
            then match JSON_parse (game_state r) with
                 | Some v => (d', Respond 200 (SavedState v))
                 | None => (d', Uncaught)
                 end
            else (d', Respond 404 (MessageJson "No save data found for this user."))
        | None => (d', Respond 404 (MessageJson "No save data found for this user."))
        end
    end.

(** [app.post('/save', ...)] behind the body parser: [content_length] is the
    size of the request body in bytes, [userId] and [gameState] are the two fields
    of the parsed body. *)
Definition save (now content_length : Z) (userId gameState : jsval) (d : db)
  : db * outcome :=
  if body_limit <? content_length
  then (d, Respond 413 (ParserError "request entity too large"))
  else if negb (truthy userId) || negb (truthy gameState)
  then (d, Respond 400 (ErrorJson "userId and gameState are required."))
  else
    let gameStateJson := JSON_stringify gameState in
    match insert_or_replace now userId gameStateJson d with
    | (d', None) => (d', Respond 500 (ErrorJson "Failed to save game data."))
    | (d', Some _) => (d', Respond 200 (SuccessJson true "Game saved successfully."))
    end.

(** The two requests, and a sequence of them handled in order. *)
Inductive request : Type :=
| Load (userId : string)
| Save (now content_length : Z) (userId gameState : jsval).

Definition handle (rq : request) (d : db) : db * outcome :=
  match rq with
  | Load userId => load userId d
  | Save now content_length userId gameState => save now content_length userId gameState d
  end.

Fixpoint run (rqs : list request) (d : db) : db * list outcome :=
  match rqs with
  | [] => (d, [])
  | rq :: rest =>
      let (d1, r) := handle rq d in
      let (d2, rs) := run rest d1 in
      (d2, r :: rs)
  end.

(** Reading a run: the time and payload of [rq] when it is a save that
    passes the size limit and the validation and whose [userId] the engine
    reads as [k]; and the last such save of a run. *)
Definition accepted (k : string) (rq : request) : option (Z * jsval) :=
  match rq with
  | Save now content_length userId gameState =>
      if (content_length <=? body_limit) && truthy userId && truthy gameState
         && bool_decide (bind userId = Some k)
      then Some (now, gameState)
      else None
  | Load _ => None
  end.

Fixpoint latest (k : string) (rqs : list request) : option (Z * jsval) :=
  match rqs with
  | [] => None
  | rq :: rest =>
      match latest k rest with
      | Some s => Some s
      | None => accepted k rq
      end
  end.

End Engine.

(** The rows under the key [k]. *)
Definition saved_under (k : string) (d : db) : list user_save :=
  filter (fun r => user_id r = k) (user_saves d).

End SaveStore.

(** ** The in-memory variant (server.js) *)

Module InMemory.

(** A value of [referralsDB]. *)
Record entry : Type := {
  rewardsToClaim : Z;
  referrals : list jsval
}.

(** The properties [referralsDB], created as [{}], inherits from
    [Object.prototype]: under these keys a lookup finds a function (or, for
    [__proto__], the prototype itself) and not [undefined]. *)
Definition object_prototype : list string :=
  [ "constructor"; "__defineGetter__"; "__defineSetter__"; "hasOwnProperty";
    "__lookupGetter__"; "__lookupSetter__"; "isPrototypeOf";
    "propertyIsEnumerable"; "toString"; "valueOf"; "__proto__";
    "toLocaleString" ].

(** The state of the process: the own properties of [referralsDB], and the
    inherited members on which [/claim] has set [rewardsToClaim = 0]. *)
Record store : Type := {
  referralsDB : gmap string entry;
  zeroed : list string
}.

Definition initial : store := {| referralsDB := ∅; zeroed := [] |}.

(** [referralsDB[k]]: an entry, an inherited member (truthy, with no
    [referrals]), or a falsy value. *)
Inductive property : Type :=
| Own (e : entry)
| Inherited
| Missing.

Definition get (k : string) (s : store) : property :=
  match referralsDB s !! k with
  | Some e => Own e
  | None => if decide (k ∈ object_prototype) then Inherited else Missing
  end.

(** [referralsDB[k] = e] *)
Definition set (k : string) (e : entry) (s : store) : store :=
  {| referralsDB := <[k := e]> (referralsDB s); zeroed := zeroed s |}.

(** [member.rewardsToClaim === 0] for the inherited member under [k]: set on
    the member itself, or on [Object.prototype], from which every member
    inherits. *)
Definition inherited_zero (k : string) (s : store) : bool :=
  bool_decide (k ∈ zeroed s \/ "__proto__" ∈ zeroed s).

(** The comparison of [Array.prototype.includes].  Arrays and objects are
    compared by identity, and each request parses its own. *)
Definition same_value_zero (x y : jsval) : bool :=
  match x, y with
  | JUndefined, JUndefined | JNull, JNull => true
  | JBool a, JBool b => Bool.eqb a b
  | JNum a, JNum b => a =? b
  | JStr a, JStr b => String.eqb a b
  | _, _ => false
  end.

Definition includes (l : list jsval) (v : jsval) : bool := existsb (same_value_zero v) l.

Inductive reply : Type :=
| Text (code : Z) (text : string)
| Json (userData : entry)          (* 200 *)
| JsonInherited                    (* 200, res.json of an inherited member *)
| Threw.                           (* a TypeError, answered 500 by Express *)

(** [app.post('/referral', ...)].  The property access
    [referralsDB[referrerId]] and the line that logs a recorded pair turn
    the ids into strings, as [js_to_string] does for [plain] ids. *)
Definition referral (referrerId refereeId : jsval) (s : store) : store * reply :=
  if negb (truthy referrerId) || negb (truthy refereeId)
  then (s, Text 400 "Missing referrerId or refereeId")
  else
    let k := js_to_string referrerId in
    let s1 := match get k s with
              | Missing => set k {| rewardsToClaim := 0; referrals := [] |} s
              | _ => s
              end in
    match get k s1 with
    | Own e =>
        if includes (referrals e) refereeId
        then (s1, Text 200 "Referral already recorded.")
        else (set k {| rewardsToClaim := rewardsToClaim e + 1;
                       referrals := referrals e ++ [refereeId] |} s1,
              Text 200 "Referral recorded successfully")
    | _ => (s1, Threw)
    end.

(** [app.get('/rewards/:userId', ...)] *)
Definition rewards (userId : string) (s : store) : store * reply :=
  if negb (truthy (JStr userId)) then (s, Text 400 "Missing userId")
  else
    match get userId s with
    | Missing => (s, Json {| rewardsToClaim := 0; referrals := [] |})
    | Own e => (s, Json e)
    | Inherited => (s, JsonInherited)
    end.

(** [app.post('/claim', ...)], with [referralsDB[userId]] as in
    [referral]. *)
Definition claim (userId : jsval) (s : store) : store * reply :=
  if negb (truthy userId) then (s, Text 400 "Missing userId")
  else
    let k := js_to_string userId in
    match get k s with
    | Missing => (s, Text 400 "No rewards to claim")
    | Own e =>
        if rewardsToClaim e =? 0 then (s, Text 400 "No rewards to claim")
        else (set k {| rewardsToClaim := 0; referrals := referrals e |} s,
              Text 200 "Rewards claimed successfully")
    | Inherited =>
        if inherited_zero k s then (s, Text 400 "No rewards to claim")
        else ({| referralsDB := referralsDB s; zeroed := k :: zeroed s |},
              Text 200 "Rewards claimed successfully")
    end.

(** The three requests, and a sequence of them handled in order. *)
Inductive request : Type :=
| Referral (referrerId refereeId : jsval)
| Rewards (userId : string)
| Claim (userId : jsval).

(** A request whose ids are all [plain]; a route parameter is a string. *)
Definition plain_request (rq : request) : bool :=
  match rq with
  | Referral referrerId refereeId => plain referrerId && plain refereeId
  | Rewards _ => true
  | Claim userId => plain userId
  end.

Definition handle (rq : request) (s : store) : store * reply :=
  match rq with
  | Referral referrerId refereeId => referral referrerId refereeId s
  | Rewards userId => rewards userId s
  | Claim userId => claim userId s
  end.

Fixpoint run (rqs : list request) (s : store) : store * list reply :=
  match rqs with
  | [] => (s, [])
  | rq :: rest =>
      let (s1, r) := handle rq s in
      let (s2, rs) := run rest s1 in
      (s2, r :: rs)
  end.

(** Reading a run: [recorded k rq rp] when [rq] was a referral by the
    referrer with key [k] and [rp] says it was recorded; [recordings] counts
    them; [claims_key k rq] when [rq] is a claim by the user with key [k]. *)
Definition recorded (k : string) (rq : request) (rp : reply) : bool :=
  match rq, rp with
  | Referral referrerId _, Text c t =>
      (c =? 200) && String.eqb t "Referral recorded successfully"
      && bool_decide (js_to_string referrerId = k)
  | _, _ => false
  end.

Fixpoint recordings (k : string) (rqs : list request) (rps : list reply) : nat :=
  match rqs, rps with
  | rq :: rqs', rp :: rps' =>
      ((if recorded k rq rp then 1 else 0) + recordings k rqs' rps')%nat
  | _, _ => 0%nat
  end.

Definition claims_key (k : string) (rq : request) : bool :=
  match rq with
  | Claim userId => bool_decide (js_to_string userId = k)
  | _ => false
  end.

(** No two places of a list hold the same value, as [includes] compares. *)
Fixpoint distinct (l : list jsval) : Prop :=
  match l with
  | [] => True
  | v :: rest => includes rest v = false /\ distinct rest
  end.

(** How many referees the entry under [k] lists and how many rewards it has
    to claim; 0 without an entry. *)
Definition listed (k : string) (s : store) : nat :=
  match referralsDB s !! k with
  | Some e => length (referrals e)
  | None => 0%nat
  end.

Definition due (k : string) (s : store) : Z :=
  match referralsDB s !! k with
  | Some e => rewardsToClaim e
  | None => 0
  end.

(** What is true of every entry of a store that requests have built. *)
Definition sound_entry (k : string) (e : entry) : Prop :=
  0 <= rewardsToClaim e <= Z.of_nat (length (referrals e)) /\
  (k ∉ object_prototype) /\ distinct (referrals e) /\ referrals e <> [].

End InMemory.

(** ** Engines for the examples

    An engine that reads a number as itself and a string as a decimal
    numeral, two that keep text as it is, and a JSON codec for scalars. *)

Definition decimal_engine (v : jsval) : option Z :=
  match v with
  | JNum n => Some n
  | JStr s => option_map Z.of_int (NilZero.int_of_string s)
  | _ => None
  end.

(** TEXT columns: a string is stored as it is and is its own key (numbered
    here by [encode], which gives different strings different numbers); a
    number is stored as its text. *)
Definition text_column_engine (v : jsval) : option Z :=
  match v with
  | JStr s => Some (Z.pos (encode s))
  | JNum n => Some (Z.pos (encode (decimal n)))
  | _ => None
  end.

Definition text_engine (v : jsval) : option string :=
  match v with
  | JStr s => Some s
  | JNum n => Some (decimal n)
  | _ => None
  end.

Definition scalar_stringify (v : jsval) : string :=
  match v with
  | JNum n => decimal n
  | JBool true => "true"
  | JBool false => "false"
  | _ => "null"
  end.

Definition scalar_parse (s : string) : option jsval :=
  if String.eqb s "true" then Some (JBool true)
  else if String.eqb s "false" then Some (JBool false)
  else if String.eqb s "null" then Some JNull
  else option_map (fun i => JNum (Z.of_int i)) (NilZero.int_of_string s).

(** * Properties *)

Section LedgerFacts.

Import Ledger.

Variable bind : jsval -> option Z.

(** What a [/start] can do to the table: nothing, or append one pending row
    under a [referred_id] that was not there. *)
Lemma on_start_table now b c d :
  (referrals (fst (on_start bind now b c d)) = referrals d /\
   forall chat, snd (on_start bind now b c d) <> Welcomed chat) \/
  (exists kr kd,
     bind (JStr c) = Some kr /\ bind (JNum b) = Some kd /\
     (kd ∉ referred_ids d) /\
     referrals (fst (on_start bind now b c d)) =
       referrals d ++ [{| id := referrals_id_seq d; referrer_id := kr; referred_id := kd;
                          status := pending; created_at := now |}] /\
     snd (on_start bind now b c d) = Welcomed b).
Proof.
  unfold on_start, insert_referral.
  destruct (String.eqb _ _); [left; split; [done | intros ? [=]] |].
  cbn [send referrals referrals_id_seq sent].
  destruct (bind (JStr c)) as [kr|]; [| left; split; [done | intros ? [=]]].
  destruct (bind (JNum b)) as [kd|]; [| left; split; [done | intros ? [=]]].
  destruct (decide _) as [Hin|Hout]; cbn.
  - left; split; [done | intros ? [=]].
  - right. exists kr, kd. done.
Qed.

(** What a claim can do to the table: nothing, or the UPDATE for the key the
    engine reads from [userId]. *)
Lemma claim_rewards_table userId d :
  (referrals (fst (claim_rewards bind userId d)) = referrals d /\
   (truthy userId = false \/ bind userId = None)) \/
  (exists k, truthy userId = true /\ bind userId = Some k /\
     referrals (fst (claim_rewards bind userId d)) = map (claim_row k) (referrals d)).
Proof.
  unfold claim_rewards, update_claimed.
  destruct (truthy userId); cbn; [| left; auto].
  destruct (bind userId) as [k|]; cbn; [| left; auto].
  right. exists k. done.
Qed.

Lemma my_referrals_table userId d :
  referrals (fst (my_referrals bind userId d)) = referrals d.
Proof.
  unfold my_referrals, select_status. by destruct (bind _).
Qed.

Lemma claim_row_fields k r :
  id (claim_row k r) = id r /\ referrer_id (claim_row k r) = referrer_id r /\
  referred_id (claim_row k r) = referred_id r /\ created_at (claim_row k r) = created_at r.
Proof. unfold claim_row. by destruct (decide _). Qed.

Lemma claim_row_referred_ids k l :
  map referred_id (map (claim_row k) l) = map referred_id l.
Proof.
  rewrite map_map. apply map_ext. intros r. apply claim_row_fields.
Qed.

(** Every request leaves the column [referred_id] as it was or appends a
    value that was not in it. *)
Lemma handle_referred_ids rq d :
  referred_ids (fst (handle bind rq d)) = referred_ids d \/
  exists kd, (kd ∉ referred_ids d) /\
    referred_ids (fst (handle bind rq d)) = referred_ids d ++ [kd].
Proof.
  destruct rq as [now b c|u|u]; cbn [handle].
  - destruct (on_start bind now b c d) as [d' o] eqn:E.
    pose proof (on_start_table now b c d) as H. rewrite E in H. cbn in *.
    destruct H as [[H _]|(kr & kd & _ & _ & Hout & H & _)].
    + left. unfold referred_ids. by rewrite H.
    + right. exists kd. split; [done|]. unfold referred_ids. rewrite H.
      by rewrite map_app.
  - destruct (my_referrals bind u d) as [d' o] eqn:E.
    pose proof (my_referrals_table u d) as H. rewrite E in H. cbn in *.
    left. unfold referred_ids. by rewrite H.
  - destruct (claim_rewards bind u d) as [d' o] eqn:E.
    pose proof (claim_rewards_table u d) as H. rewrite E in H. cbn in *.
    left. unfold referred_ids.
    destruct H as [[H _]|(k & _ & _ & H)]; rewrite H; [done|].
    apply claim_row_referred_ids.
Qed.

Lemma handle_unique rq d :
  NoDup (referred_ids d) -> NoDup (referred_ids (fst (handle bind rq d))).
Proof.
  intros Hd. destruct (handle_referred_ids rq d) as [->|(kd & Hout & ->)]; [done|].
  apply NoDup_app. split; [done|]. split.
  - intros x Hx Hx'. apply list_elem_of_singleton in Hx'. by subst.
  - apply NoDup_singleton.
Qed.

Lemma run_cons rq rqs d :
  run bind (rq :: rqs) d =
    (fst (run bind rqs (fst (handle bind rq d))),
     snd (handle bind rq d) :: snd (run bind rqs (fst (handle bind rq d)))).
Proof.
  cbn [run]. destruct (handle bind rq d) as [d1 r]. cbn.
  by destruct (run bind rqs d1).
Qed.

Lemma run_unique rqs d :
  NoDup (referred_ids d) -> NoDup (referred_ids (fst (run bind rqs d))).
Proof.
  revert d. induction rqs as [|rq rqs IH]; intros d Hd; [done|].
  rewrite run_cons. cbn. apply IH. by apply handle_unique.
Qed.

Lemma reachable_unique rqs : NoDup (referred_ids (fst (run bind rqs initial))).
Proof. apply run_unique. cbn. apply NoDup_nil_2. Qed.

(** The referrer recorded for a referred user never changes. *)
Lemma referrer_of_app kd l l' kr :
  option_map referrer_id (head (filter (fun r => referred_id r = kd) l)) = Some kr ->
  option_map referrer_id (head (filter (fun r => referred_id r = kd) (l ++ l'))) = Some kr.
Proof.
  rewrite filter_app. destruct (filter _ l); [done|]. by cbn.
Qed.

Lemma referrer_of_claim_row k kd l :
  option_map referrer_id (head (filter (fun r => referred_id r = kd) (map (claim_row k) l))) =
  option_map referrer_id (head (filter (fun r => referred_id r = kd) l)).
Proof.
  induction l as [|r l IH]; [done|]. cbn [map].
  destruct (claim_row_fields k r) as (_ & Hr & Hd & _).
  rewrite !filter_cons. rewrite Hd.
  destruct (decide (referred_id r = kd)); [|done]. cbn. by rewrite Hr.
Qed.

Lemma handle_keeps_referrer rq d kd kr :
  referrer_of kd d = Some kr -> referrer_of kd (fst (handle bind rq d)) = Some kr.
Proof.
  unfold referrer_of, referral_of. intros H.
  destruct rq as [now b c|u|u]; cbn [handle].
  - destruct (on_start bind now b c d) as [d' o] eqn:E.
    pose proof (on_start_table now b c d) as T. rewrite E in T. cbn in *.
    destruct T as [[-> _]|(? & ? & _ & _ & _ & -> & _)]; [done|].
    by apply referrer_of_app.
  - destruct (my_referrals bind u d) as [d' o] eqn:E.
    pose proof (my_referrals_table u d) as T. rewrite E in T. cbn in *.
    by rewrite T.
  - destruct (claim_rewards bind u d) as [d' o] eqn:E.
    pose proof (claim_rewards_table u d) as T. rewrite E in T. cbn in *.
    destruct T as [[-> _]|(k & _ & _ & ->)]; [done|].
    by rewrite referrer_of_claim_row.
Qed.

Lemma run_keeps_referrer rqs d kd kr :
  referrer_of kd d = Some kr -> referrer_of kd (fst (run bind rqs d)) = Some kr.
Proof.
  revert d. induction rqs as [|rq rqs IH]; intros d H; [done|].
  rewrite run_cons. cbn. apply IH. by apply handle_keeps_referrer.
Qed.

Lemma referrer_of_known kd d kr :
  referrer_of kd d = Some kr -> (kd ∈ referred_ids d).
Proof.
  unfold referrer_of, referral_of, referred_ids.
  destruct (filter _ _) as [|r l] eqn:E; [done|]. intros _.
  assert (r ∈ filter (fun r => referred_id r = kd) (referrals d)) as Hr
    by (rewrite E; apply list_elem_of_here).
  apply list_elem_of_filter in Hr as [<- Hr].
  apply list_elem_of_fmap. by exists r.
Qed.

(** A [/start] from a user who is already referred changes nothing. *)
Lemma on_start_known now b c d kd :
  bind (JNum b) = Some kd -> (kd ∈ referred_ids d) ->
  referrals (fst (on_start bind now b c d)) = referrals d /\
  forall chat, snd (on_start bind now b c d) <> Welcomed chat.
Proof.
  intros Hb Hin.
  destruct (on_start_table now b c d) as [H|(kr & kd' & _ & Hb' & Hout & _)]; [done|].
  congruence.
Qed.

Lemma filter_absent (kd : Z) (l : list referral) :
  (kd ∉ map referred_id l) -> filter (fun r => referred_id r = kd) l = [].
Proof.
  intros Hout. induction l as [|r l IH]; [done|].
  rewrite filter_cons. cbn in Hout. apply not_elem_of_cons in Hout as [Hne Hout].
  destruct (decide _); [congruence|]. by apply IH.
Qed.

Lemma unique_record (l : list referral) r1 r2 :
  NoDup (map referred_id l) -> r1 ∈ l -> r2 ∈ l ->
  referred_id r1 = referred_id r2 -> r1 = r2.
Proof.
  induction l as [|r l IH]; intros Hnd H1 H2 Heq.
  { by apply elem_of_nil in H1. }
  cbn in Hnd. apply NoDup_cons in Hnd as [Hout Hnd].
  apply elem_of_cons in H1 as [->|H1]; apply elem_of_cons in H2 as [->|H2].
  - done.
  - destruct Hout. rewrite Heq. apply list_elem_of_fmap. by exists r2.
  - destruct Hout. rewrite <- Heq. apply list_elem_of_fmap. by exists r1.
  - by apply IH.
Qed.

Lemma referrer_of_unique kd kr d r :
  NoDup (referred_ids d) -> referrer_of kd d = Some kr ->
  r ∈ referrals d -> referred_id r = kd -> referrer_id r = kr.
Proof.
  unfold referrer_of, referral_of, referred_ids. intros Hnd Hof Hr Hkd.
  destruct (filter _ _) as [|r0 l] eqn:E; [done|]. cbn in Hof. injection Hof as <-.
  assert (r0 ∈ filter (fun r => referred_id r = kd) (referrals d)) as H0
    by (rewrite E; apply list_elem_of_here).
  apply list_elem_of_filter in H0 as [H0 Hin].
  f_equal. apply (unique_record (referrals d)); congruence.
Qed.

(** Claim C1, on the SQL revisions: first writer wins, for good.  Let a
    [/start] from user [b] with code [a] insert a row, in a database reached
    from the empty one by any requests, and let any requests follow.  Then a
    [/start] from [b] with any code [c] leaves the table as it is and sends
    no welcome; the record of [b], and every record with that
    [referred_id], names the referrer the engine read from [a]; and no
    [referred_id] occurs twice in the table. *)
Theorem first_writer_wins (before later : list request) (now b : Z) (a : string)
    (d1 : db) (now' : Z) (c : string) :
  on_start bind now b a (fst (run bind before initial)) = (d1, Welcomed b) ->
  let d2 := fst (run bind later d1) in
  let d3 := fst (on_start bind now' b c d2) in
  referrals d3 = referrals d2 /\
  (forall chat, snd (on_start bind now' b c d2) <> Welcomed chat) /\
  (exists ka kb, bind (JStr a) = Some ka /\ bind (JNum b) = Some kb /\
     referrer_of kb d3 = Some ka /\
     forall r, r ∈ referrals d3 -> referred_id r = kb -> referrer_id r = ka) /\
  NoDup (referred_ids d3).
Proof.
  intros Hfirst d2 d3.
  set (d0 := fst (run bind before initial)) in *.
  destruct (on_start_table now b a d0) as [[_ H]|(ka & kb & Ha & Hb & Hout & Htab & _)].
  { rewrite Hfirst in H. by destruct (H b). }
  rewrite Hfirst in Htab. cbn in Htab.
  assert (referrer_of kb d1 = Some ka) as H1.
  { unfold referrer_of, referral_of. rewrite Htab, filter_app.
    rewrite (filter_absent _ _ Hout), filter_cons. cbn.
    by destruct (decide (kb = kb)). }
  assert (referrer_of kb d2 = Some ka) as H2 by by apply run_keeps_referrer.
  destruct (on_start_known now' b c d2 kb Hb (referrer_of_known _ _ _ H2)) as [Hsame Hno].
  assert (NoDup (referred_ids d1)) as U1.
  { unfold referred_ids. rewrite Htab, map_app. apply NoDup_app.
    split; [apply reachable_unique|]. split; [|apply NoDup_singleton].
    intros x Hx Hx'. apply list_elem_of_singleton in Hx'. by subst. }
  assert (NoDup (referred_ids d2)) as U2 by by apply run_unique.
  subst d3. split; [done|]. split; [done|]. split.
  - exists ka, kb. split; [done|]. split; [done|]. split.
    + unfold referrer_of, referral_of. rewrite Hsame. exact H2.
    + rewrite Hsame. intros r. by apply referrer_of_unique.
  - unfold referred_ids. by rewrite Hsame.
Qed.

(** Counting rows. *)
Lemma filter_map_length (P : referral -> Prop) `{forall r, Decision (P r)}
    (f : referral -> referral) (l : list referral) :
  (forall r, P (f r) <-> P r) ->
  length (filter P (map f l)) = length (filter P l).
Proof.
  intros Hf. induction l as [|r l IH]; [done|]. cbn [map].
  rewrite !filter_cons.
  destruct (decide (P (f r))) as [Y|N], (decide (P r)) as [Y'|N']; cbn;
    rewrite ?IH; first [done | destruct N'; by apply Hf | destruct N; by apply Hf].
Qed.

Lemma pending_statuses k (l : list referral) :
  length (filter (fun s => s = pending) (map status (filter (owned_by k) l))) =
  length (filter (claimable k) l).
Proof.
  induction l as [|r l IH]; [done|].
  rewrite !filter_cons. unfold owned_by, claimable in *.
  destruct (decide (referrer_id r = k)) as [Y|N].
  - cbn [map]. rewrite filter_cons.
    destruct (decide (status r = pending)), (decide (_ /\ _)) as [|N']; cbn;
      rewrite ?IH; try done; [by destruct N' | tauto].
  - rewrite IH. destruct (decide (_ /\ _)); [tauto | done].
Qed.

Lemma my_referrals_reply a ka d :
  bind (JStr a) = Some ka ->
  snd (my_referrals bind a d) =
    {| code := 200;
       json := StatsJson (Z.of_nat (invited ka d)) (Z.of_nat (unclaimed ka d))
                         (reward_for (Z.of_nat (unclaimed ka d))) |}.
Proof.
  intros Ha. unfold my_referrals, select_status, invited, unclaimed. rewrite Ha. cbn.
  by rewrite pending_statuses, length_map.
Qed.

Lemma claim_row_other k k' r :
  k' <> k ->
  (owned_by k (claim_row k' r) <-> owned_by k r) /\
  (claimable k (claim_row k' r) <-> claimable k r).
Proof.
  intros Hne. unfold claim_row, owned_by, claimable.
  destruct (decide _) as [[Hr _]|]; [|done]. cbn. split; [done|].
  split; intros [? ?]; congruence.
Qed.

(** One request moves both counts of [ka] by one when it is a referral
    credited to [ka], and not at all otherwise, claims for [ka] apart. *)
Lemma handle_counts ka rq d :
  claims_for bind ka rq = false ->
  let n := if credited bind ka rq (snd (handle bind rq d)) then 1%nat else 0%nat in
  invited ka (fst (handle bind rq d)) = (invited ka d + n)%nat /\
  unclaimed ka (fst (handle bind rq d)) = (unclaimed ka d + n)%nat.
Proof.
  intros Hc. destruct rq as [now b c|u|u]; cbn [handle].
  - destruct (on_start bind now b c d) as [d' o] eqn:E.
    pose proof (on_start_table now b c d) as T. rewrite E in T. cbn in *.
    unfold invited, unclaimed.
    destruct T as [[-> Hno]|(kr & kd & Hc' & _ & _ & -> & ->)].
    + destruct o; try (split; lia). by destruct (Hno chat).
    + rewrite Hc', !filter_app, !length_app, !filter_cons. unfold owned_by, claimable. cbn.
      destruct (decide (kr = ka)) as [->|N].
      * rewrite bool_decide_eq_true_2 by done.
        destruct (decide (_ /\ _)) as [|N']; [done | by destruct N'].
      * rewrite bool_decide_eq_false_2 by congruence.
        destruct (decide (_ /\ _)) as [[? _]|]; done.
  - destruct (my_referrals bind u d) as [d' o] eqn:E.
    pose proof (my_referrals_table u d) as T. rewrite E in T. cbn in *.
    unfold invited, unclaimed. rewrite T. split; lia.
  - destruct (claim_rewards bind u d) as [d' o] eqn:E.
    pose proof (claim_rewards_table u d) as T. rewrite E in T. cbn in *.
    apply bool_decide_eq_false in Hc.
    unfold invited, unclaimed.
    destruct T as [[-> _]|(k & _ & Hk & ->)]; [split; lia|].
    assert (k <> ka) as Hne by congruence.
    rewrite !filter_map_length by (intros r; by apply claim_row_other).
    split; lia.
Qed.

Lemma run_counts ka rqs d :
  existsb (claims_for bind ka) rqs = false ->
  let n := credits bind ka rqs (snd (run bind rqs d)) in
  invited ka (fst (run bind rqs d)) = (invited ka d + n)%nat /\
  unclaimed ka (fst (run bind rqs d)) = (unclaimed ka d + n)%nat.
Proof.
  revert d. induction rqs as [|rq rqs IH]; intros d Hc; cbn in Hc.
  { cbn. split; lia. }
  apply orb_false_iff in Hc as [Hrq Hrest].
  rewrite run_cons. cbn [fst snd credits].
  destruct (handle_counts ka rq d Hrq) as [H1 H2].
  destruct (IH (fst (handle bind rq d)) Hrest) as [H3 H4].
  cbn zeta in *. rewrite H3, H4, H1, H2. split; lia.
Qed.

(** Claim C4, as the code has it.  What [/my-referrals/a] answers depends
    on what the engine makes of the user id [a].  When it reads [a] as the
    key [ka]: after any run from the empty database without a claim for
    [ka], in which [k] requests were [/start]s credited to [ka], the answer
    is 200 with [friendsInvited = k], [unclaimedCount = k] and a reward of
    50000 money and 5 gems per referral; and in any database without a
    record of [ka] it is 200 with zeros.  When the engine refuses [a], the
    answer is 500 "Database query failed" in every database, with or without
    records, and the table is as it was. *)
Theorem stats_after_referrals (a : string) :
  match bind (JStr a) with
  | Some ka =>
      (forall rqs, existsb (claims_for bind ka) rqs = false ->
         let k := Z.of_nat (credits bind ka rqs (snd (run bind rqs initial))) in
         snd (my_referrals bind a (fst (run bind rqs initial))) =
           {| code := 200;
              json := StatsJson k k {| money := k * 50000; gems := k * 5 |} |}) /\
      (forall d, Forall (fun r => referrer_id r <> ka) (referrals d) ->
         snd (my_referrals bind a d) =
           {| code := 200; json := StatsJson 0 0 {| money := 0; gems := 0 |} |})
  | None =>
      forall d,
        snd (my_referrals bind a d) =
          {| code := 500; json := ErrorJson "Database query failed" |} /\
        referrals (fst (my_referrals bind a d)) = referrals d
  end.
Proof.
  destruct (bind (JStr a)) as [ka|] eqn:Ha; [|
    intros d; unfold my_referrals, select_status; rewrite Ha; by cbn].
  split.
  - intros rqs Hc k. rewrite (my_referrals_reply a ka) by done.
    destruct (run_counts ka rqs initial Hc) as [H1 H2]. cbn zeta in *.
    rewrite H1, H2. done.
  - intros d Hd. rewrite (my_referrals_reply a ka) by done.
    assert (filter (owned_by ka) (referrals d) = []) as Hi.
    { induction Hd as [|r l Hr _ IH]; [done|]. rewrite filter_cons.
      unfold owned_by in *. by destruct (decide _). }
    assert (filter (claimable ka) (referrals d) = []) as Hu.
    { clear Hi. induction Hd as [|r l Hr _ IH]; [done|]. rewrite filter_cons.
      unfold claimable in *. destruct (decide _) as [[? _]|]; done. }
    unfold invited, unclaimed. rewrite Hi, Hu. done.
Qed.


(** The UPDATE leaves nothing of [k] pending. *)
Lemma claim_row_settled k r : ~ claimable k (claim_row k r).
Proof.
  unfold claim_row. destruct (decide (claimable k r)) as [Y|N]; [|done].
  unfold claimable. cbn. intros [_ [=]].
Qed.

Lemma unclaimed_after_update k (l : list referral) :
  filter (claimable k) (map (claim_row k) l) = [].
Proof.
  induction l as [|r l IH]; [done|]. cbn [map]. rewrite filter_cons.
  destruct (decide _) as [Y|_]; [by apply claim_row_settled in Y | done].
Qed.

Lemma claim_rewards_reply userId k d :
  truthy userId = true -> bind userId = Some k ->
  claim_rewards bind userId d =
    ({| referrals := map (claim_row k) (referrals d);
        referrals_id_seq := referrals_id_seq d;
        sent := sent d ++ [UpdateClaimed userId] |},
     {| code := 200;
        json := ClaimJson (Z.of_nat (unclaimed k d)) (reward_for (Z.of_nat (unclaimed k d))) |}).
Proof.
  intros Ht Hk. unfold claim_rewards, update_claimed. by rewrite Ht, Hk.
Qed.

(** Claim C3, on [POST /claim-rewards].  A claim with a [userId] that passes
    the validation and that the engine reads as the referrer [a] answers 200
    with [claimedCount] the number of records of [a] that were pending and
    50000 money and 5 gems for each; every record that was pending for [a]
    is in the table as claimed and no record of [a] is pending any more; the
    same claim again answers 200 with a count of 0 and no reward. *)
Theorem claim_rewards_counts (userId : jsval) (a : Z) (d : db) :
  truthy userId = true -> bind userId = Some a ->
  let k := Z.of_nat (unclaimed a d) in
  let d1 := fst (claim_rewards bind userId d) in
  snd (claim_rewards bind userId d) =
    {| code := 200; json := ClaimJson k {| money := k * 50000; gems := k * 5 |} |} /\
  (forall r, r ∈ referrals d -> claimable a r -> set_claimed r ∈ referrals d1) /\
  (forall r, r ∈ referrals d1 -> referrer_id r = a -> status r = claimed) /\
  snd (claim_rewards bind userId d1) =
    {| code := 200; json := ClaimJson 0 {| money := 0; gems := 0 |} |}.
Proof.
  intros Ht Ha k d1. subst k d1.
  rewrite !(claim_rewards_reply userId a) by done. cbn [fst snd referrals].
  split; [done|]. split; [|split].
  - intros r Hr Hc. apply list_elem_of_fmap. exists r. split; [|done].
    unfold claim_row. by destruct (decide _).
  - intros r Hr Hown. apply list_elem_of_fmap in Hr as (r0 & -> & _).
    pose proof (claim_row_settled a r0) as Hs. unfold claimable in Hs.
    destruct (status (claim_row a r0)); [tauto | done].
  - unfold unclaimed. cbn [referrals]. by rewrite unclaimed_after_update.
Qed.

Lemma idle_claims_total userId a n d :
  truthy userId = true -> bind userId = Some a -> unclaimed a d = 0%nat ->
  total_claimed (snd (run bind (replicate n (ClaimRewards userId)) d)) = 0.
Proof.
  intros Hu Ha. revert d. induction n as [|n IH]; intros d H0; [done|].
  cbn [replicate]. rewrite run_cons. cbn [handle snd fst].
  rewrite (claim_rewards_reply userId a) by done. cbn [fst snd].
  unfold total_claimed in *. cbn [map fold_right claimed_count json].
  rewrite IH, H0; [done|].
  unfold unclaimed. cbn [referrals]. by rewrite unclaimed_after_update.
Qed.

(** However many claims for one referrer are handled one after the other,
    their counts add up to the number of records that were pending. *)
Lemma claims_in_sequence_total userId a n d :
  truthy userId = true -> bind userId = Some a ->
  total_claimed (snd (run bind (replicate (S n) (ClaimRewards userId)) d)) =
  Z.of_nat (unclaimed a d).
Proof.
  intros Hu Ha. cbn [replicate]. rewrite run_cons. cbn [handle snd fst].
  rewrite (claim_rewards_reply userId a) by done. cbn [fst snd].
  unfold total_claimed. cbn [map fold_right claimed_count json].
  fold (total_claimed (snd (run bind (replicate n (ClaimRewards userId))
    {| referrals := map (claim_row a) (referrals d);
       referrals_id_seq := referrals_id_seq d;
       sent := sent d ++ [UpdateClaimed userId] |}))).
  rewrite (idle_claims_total userId a); [lia | done | done |].
  unfold unclaimed. cbn [referrals]. by rewrite unclaimed_after_update.
Qed.

(** Claim C9: the frame of a claim.  Whatever [userId] is, the table after
    [/claim-rewards] has the rows of the table before it, one for one and in
    the same order, with [id], [referrer_id], [referred_id] and [created_at]
    as they were; a row differs only by a [status] gone from pending to
    claimed, and only when the engine reads [userId] as its referrer.  A row
    of any other referrer is found unchanged in its place, and the sequence
    of ids is left alone. *)
Theorem claim_rewards_frame (userId : jsval) (d : db) :
  let d' := fst (claim_rewards bind userId d) in
  Forall2 (claimed_for (bind userId)) (referrals d) (referrals d') /\
  (forall (i : nat) r, referrals d !! i = Some r ->
     bind userId <> Some (referrer_id r) -> referrals d' !! i = Some r) /\
  referrals_id_seq d' = referrals_id_seq d.
Proof.
  intros d'. subst d'.
  assert (Forall2 (claimed_for (bind userId)) (referrals d)
            (referrals (fst (claim_rewards bind userId d)))) as F.
  { destruct (claim_rewards_table userId d) as [[-> _]|(k & _ & Hk & ->)].
    - apply Forall2_same_length_lookup_2; [done|].
      intros i r r' H1 H2. assert (r' = r) as -> by congruence.
      unfold claimed_for. tauto.
    - rewrite Hk. apply Forall2_fmap_r, Forall_Forall2_diag, Forall_forall.
      intros r _. unfold claimed_for.
      destruct (claim_row_fields k r) as (? & ? & ? & ?).
      repeat (split; [done|]).
      unfold claim_row. destruct (decide _) as [[<- Hp]|]; [|by left].
      right. done. }
  split; [exact F|]. split.
  - intros i r Hr Hne.
    destruct (Forall2_lookup_l _ _ _ _ _ F Hr) as (r' & Hr' & _ & _ & _ & _ & [->|[Hk _]]);
      [done | by destruct Hne].
  - unfold claim_rewards, update_claimed.
    destruct (truthy userId); cbn; [|done]. by destruct (bind userId).
Qed.

(** The guard of the [/start] handler: a code that reads like the sender's
    id ends the handler before anything is sent to the database. *)
Lemma on_start_self now a d :
  on_start bind now a (js_to_string (JNum a)) d = (d, Dropped).
Proof.
  unfold on_start. cbn [js_to_string]. by rewrite String.eqb_refl.
Qed.

(** Claim C2, on the SQL revisions: a [/start] whose code is the text of the
    sender's own id is dropped.  The database comes back as it was (no row,
    no statement sent), the outcome is [Dropped] (no message, no error), and
    [/my-referrals] answers every user as it did before. *)
Theorem self_referral_dropped (now a : Z) (d : db) :
  on_start bind now a (js_to_string (JNum a)) d = (d, Dropped) /\
  forall userId,
    snd (my_referrals bind userId (fst (on_start bind now a (js_to_string (JNum a)) d))) =
    snd (my_referrals bind userId d).
Proof.
  split; [apply on_start_self|]. intros userId. by rewrite on_start_self.
Qed.

End LedgerFacts.

(** ** The ledger on concrete runs *)

(** The example of the specification, request by request. *)
Example ledger_example :
  snd (Ledger.run decimal_engine
         [Ledger.Start 1 200 "100"; Ledger.Start 2 200 "100"; Ledger.MyReferrals "100";
          Ledger.ClaimRewards (JStr "100"); Ledger.MyReferrals "100"]
         Ledger.initial) =
  [Ledger.Bot (Ledger.Welcomed 200); Ledger.Bot Ledger.ExistingUser;
   Ledger.Http {| Ledger.code := 200;
                  Ledger.json := Ledger.StatsJson 1 1 {| money := 50000; gems := 5 |} |};
   Ledger.Http {| Ledger.code := 200;
                  Ledger.json := Ledger.ClaimJson 1 {| money := 50000; gems := 5 |} |};
   Ledger.Http {| Ledger.code := 200;
                  Ledger.json := Ledger.StatsJson 1 0 {| money := 0; gems := 0 |} |}].
Proof. reflexivity. Qed.

(** [first_writer_wins] on a run: 200 is referred by 100, then starts again
    with the code of 300. *)
Lemma first_writer_wins_witness :
  Ledger.on_start decimal_engine 1 200 "100" (fst (Ledger.run decimal_engine [] Ledger.initial)) =
    (fst (Ledger.on_start decimal_engine 1 200 "100" Ledger.initial), Ledger.Welcomed 200) /\
  let d2 := fst (Ledger.run decimal_engine
                   [Ledger.Start 2 300 "100"; Ledger.ClaimRewards (JNum 100)]
                   (fst (Ledger.on_start decimal_engine 1 200 "100" Ledger.initial))) in
  let d3 := fst (Ledger.on_start decimal_engine 3 200 "300" d2) in
  Ledger.referrals d3 = Ledger.referrals d2 /\
  (forall chat, snd (Ledger.on_start decimal_engine 3 200 "300" d2) <> Ledger.Welcomed chat) /\
  (exists ka kb, decimal_engine (JStr "100") = Some ka /\ decimal_engine (JNum 200) = Some kb /\
     Ledger.referrer_of kb d3 = Some ka /\
     forall r, r ∈ Ledger.referrals d3 -> Ledger.referred_id r = kb ->
               Ledger.referrer_id r = ka) /\
  NoDup (Ledger.referred_ids d3).
Proof.
  split; [reflexivity|].
  apply (first_writer_wins decimal_engine [] _ 1 200 "100" _ 3 "300"). reflexivity.
Defined.

(** [claim_rewards_counts] for referrer 100 with two pending records. *)
Lemma claim_rewards_counts_witness :
  let d := fst (Ledger.run decimal_engine
                  [Ledger.Start 1 200 "100"; Ledger.Start 2 300 "100"; Ledger.Start 3 400 "500"]
                  Ledger.initial) in
  truthy (JStr "100") = true /\ decimal_engine (JStr "100") = Some 100 /\
  snd (Ledger.claim_rewards decimal_engine (JStr "100") d) =
    {| Ledger.code := 200;
       Ledger.json := Ledger.ClaimJson 2 {| money := 100000; gems := 10 |} |} /\
  snd (Ledger.claim_rewards decimal_engine (JStr "100")
         (fst (Ledger.claim_rewards decimal_engine (JStr "100") d))) =
    {| Ledger.code := 200; Ledger.json := Ledger.ClaimJson 0 {| money := 0; gems := 0 |} |}.
Proof.
  intros d.
  split; [reflexivity|]. split; [reflexivity|].
  pose proof (claim_rewards_counts decimal_engine (JStr "100") 100 d eq_refl eq_refl) as H.
  cbv zeta in H. destruct H as (H1 & _ & _ & H2). split; [exact H1 | exact H2].
Defined.

(** [stats_after_referrals] for referrer 100: two referrals credited, one
    refused, one for somebody else. *)
Lemma stats_after_referrals_witness :
  decimal_engine (JStr "100") = Some 100 /\
  snd (Ledger.my_referrals decimal_engine "100"
         (fst (Ledger.run decimal_engine
                 [Ledger.Start 1 200 "100"; Ledger.Start 2 300 "100";
                  Ledger.Start 3 200 "100"; Ledger.Start 4 400 "500";
                  Ledger.ClaimRewards (JStr "500")]
                 Ledger.initial))) =
    {| Ledger.code := 200;
       Ledger.json := Ledger.StatsJson 2 2 {| money := 100000; gems := 10 |} |} /\
  snd (Ledger.my_referrals decimal_engine "100" Ledger.initial) =
    {| Ledger.code := 200; Ledger.json := Ledger.StatsJson 0 0 {| money := 0; gems := 0 |} |}.
Proof.
  split; [reflexivity|].
  pose proof (stats_after_referrals decimal_engine "100") as H.
  change (decimal_engine (JStr "100")) with (Some 100) in H.
  destruct H as [H1 H2].
  split.
  - exact (H1 [Ledger.Start 1 200 "100"; Ledger.Start 2 300 "100";
               Ledger.Start 3 200 "100"; Ledger.Start 4 400 "500";
               Ledger.ClaimRewards (JStr "500")] eq_refl).
  - apply H2. constructor.
Defined.

(** Against C4 as stated.  The engine that reads decimal numerals refuses
    the id "abc", as a BIGINT column does: with no records at all,
    [/my-referrals/abc] answers 500 and not zero stats.  And [/rewards] of
    the in-memory variant answers the entry itself, which has a count and
    the list of referees and no reward. *)
Lemma stats_refused_id_is_500 :
  decimal_engine (JStr "abc") = None /\
  Ledger.referrals Ledger.initial = [] /\
  snd (Ledger.my_referrals decimal_engine "abc" Ledger.initial) =
    {| Ledger.code := 500; Ledger.json := Ledger.ErrorJson "Database query failed" |} /\
  snd (InMemory.rewards "alice"
         (fst (InMemory.referral (JStr "alice") (JStr "bob") InMemory.initial))) =
    InMemory.Json {| InMemory.rewardsToClaim := 1; InMemory.referrals := [JStr "bob"] |}.
Proof. repeat split. Qed.

(** [claims_in_sequence_total]: three claims in a row for two pending
    records. *)
Lemma claims_in_sequence_total_witness :
  (truthy (JStr "100") = true /\ decimal_engine (JStr "100") = Some 100) /\
  Ledger.total_claimed
    (snd (Ledger.run decimal_engine (replicate 3 (Ledger.ClaimRewards (JStr "100")))
            (fst (Ledger.run decimal_engine
                    [Ledger.Start 1 200 "100"; Ledger.Start 2 300 "100"] Ledger.initial)))) = 2.
Proof.
  split; [done|].
  rewrite (claims_in_sequence_total decimal_engine (JStr "100") 100 2 _ eq_refl eq_refl).
  reflexivity.
Defined.

(** With an engine that reads the code "0100" as the key 100, the guard of
    the [/start] handler, which compares text, lets user 100 through: the row
    stored has the same referrer and referred user. *)
Example start_code_with_leading_zero :
  Ledger.on_start decimal_engine 1 100 "0100" Ledger.initial =
    ({| Ledger.referrals :=
          [{| Ledger.id := 1; Ledger.referrer_id := 100; Ledger.referred_id := 100;
              Ledger.status := Ledger.pending; Ledger.created_at := 1 |}];
        Ledger.referrals_id_seq := 2;
        Ledger.sent := [Ledger.InsertReferral (JStr "0100") (JNum 100)] |},
     Ledger.Welcomed 100).
Proof. reflexivity. Qed.

(** ** The save store *)

Section SaveStoreFacts.

Import SaveStore.

Variable bind : jsval -> option string.
Variable JSON_stringify : jsval -> string.
Variable JSON_parse : string -> option jsval.

(** An accepted save: what is sent, what the table becomes, what is answered. *)
Lemma save_accepted now len userId gameState k d :
  len <= body_limit -> truthy userId = true -> truthy gameState = true ->
  bind userId = Some k ->
  save bind JSON_stringify now len userId gameState d =
    ({| user_saves := filter (fun r => user_id r <> k) (user_saves d) ++
          [{| user_id := k; game_state := JSON_stringify gameState; last_saved := now |}];
        sent := sent d ++ [InsertOrReplace userId (JSON_stringify gameState)] |},
     Respond 200 (SuccessJson true "Game saved successfully.")).
Proof.
  intros Hlen Hu Hg Hk. unfold save, insert_or_replace.
  rewrite (proj2 (Z.ltb_ge _ _) Hlen), Hu, Hg, Hk. done.
Qed.

Lemma filter_filter_out (k : string) (l : list user_save) :
  filter (fun r => user_id r = k) (filter (fun r => user_id r <> k) l) = [].
Proof.
  induction l as [|r l IH]; [done|]. rewrite filter_cons.
  destruct (decide (user_id r <> k)) as [N|_]; [|done].
  rewrite filter_cons. by destruct (decide (user_id r = k)).
Qed.

Lemma filter_filter_keep (k : string) (l : list user_save) :
  filter (fun r => user_id r <> k) (filter (fun r => user_id r <> k) l) =
  filter (fun r => user_id r <> k) l.
Proof.
  induction l as [|r l IH]; [done|]. rewrite filter_cons.
  destruct (decide (user_id r <> k)) as [N|Y]; [|done].
  rewrite filter_cons. destruct (decide (user_id r <> k)); [|done]. by rewrite IH.
Qed.

(** The table after [INSERT OR REPLACE]: one row under the key, the new
    one, and the rows of the other keys as they were. *)
Lemma replaced_rows (k g : string) (t : Z) (l : list user_save) :
  let new := {| user_id := k; game_state := g; last_saved := t |} in
  filter (fun r => user_id r = k) (filter (fun r => user_id r <> k) l ++ [new]) = [new] /\
  filter (fun r => user_id r <> k) (filter (fun r => user_id r <> k) l ++ [new]) =
    filter (fun r => user_id r <> k) l.
Proof.
  intros new. rewrite !filter_app, filter_filter_out, filter_filter_keep, !filter_cons.
  destruct (decide (user_id new = k)), (decide (user_id new <> k)); try done.
  by rewrite app_nil_r.
Qed.

(** The primary key stays a key. *)
Lemma save_keeps_key now len userId gameState d :
  NoDup (map user_id (user_saves d)) ->
  NoDup (map user_id (user_saves (fst (save bind JSON_stringify now len userId gameState d)))).
Proof.
  intros Hd. unfold save, insert_or_replace.
  destruct (_ <? _); [done|]. destruct (_ || _); [done|]. cbn.
  destruct (bind userId) as [k|]; [|done]. cbn.
  rewrite map_app. apply NoDup_app. split; [|split].
  - eapply sublist_NoDup; [exact Hd|]. apply fmap_sublist, sublist_filter.
  - intros x Hx Hx'. apply list_elem_of_singleton in Hx'. subst x.
    apply list_elem_of_fmap in Hx as (r & Hr & Hin).
    apply list_elem_of_filter in Hin as [Hne _]. by destruct Hne.
  - apply NoDup_singleton.
Qed.

Lemma load_keeps_table userId d :
  user_saves (fst (load bind JSON_parse userId d)) = user_saves d.
Proof.
  unfold load, select_game_state. destruct (negb _); [done|].
  destruct (bind _); [|done]. cbn [send user_saves].
  destruct (head _) as [r|]; [|done].
  destruct (truthy (JStr (game_state r))); [|done]. by destruct (JSON_parse _).
Qed.

(** Claim C6, for the payloads [/save] accepts.  Let [u] be a non-empty user
    id that the engine reads as the key [k], and [S] a truthy payload in a
    body within the limit, whose serialization is not empty and parses back
    to [S].  After [save(u, S)], [load(u)] answers 200 with [S]; the table
    holds one record under [k], made of the serialized [S] and the time of
    the save; and a table with one record per user stays so. *)
Theorem save_load_round_trip (now len : Z) (u k : string) (S : jsval) (d : db) :
  len <= body_limit -> truthy (JStr u) = true -> truthy S = true ->
  bind (JStr u) = Some k ->
  JSON_stringify S <> "" -> JSON_parse (JSON_stringify S) = Some S ->
  let d1 := fst (save bind JSON_stringify now len (JStr u) S d) in
  snd (load bind JSON_parse u d1) = Respond 200 (SavedState S) /\
  filter (fun r => user_id r = k) (user_saves d1) =
    [{| user_id := k; game_state := JSON_stringify S; last_saved := now |}] /\
  (NoDup (map user_id (user_saves d)) -> NoDup (map user_id (user_saves d1))).
Proof.
  intros Hlen Hu HS Hk Hne Hrt d1. subst d1.
  split; [|split].
  - rewrite (save_accepted now len (JStr u) S k) by done.
    unfold load, select_game_state. rewrite Hu, Hk. cbn [negb fst snd send user_saves].
    rewrite (proj1 (replaced_rows k _ _ _)). cbn [head game_state truthy].
    apply String.eqb_neq in Hne. rewrite Hne, Hrt. done.
  - rewrite (save_accepted now len (JStr u) S k) by done. cbn [fst user_saves].
    by apply replaced_rows.
  - apply save_keeps_key.
Qed.

(** Claim C7, for the fields [/save] accepts.  With a body within the limit,
    a truthy [userId] that the engine reads as the key [k] and a truthy
    [gameState], the save answers 200 with [success: true]; afterwards the
    one record under [k] is the new payload with the new time, whether or not
    there was one before, and the records of the other users are as they
    were. *)
Theorem save_succeeds (now len : Z) (userId gameState : jsval) (k : string) (d : db) :
  len <= body_limit -> truthy userId = true -> truthy gameState = true ->
  bind userId = Some k ->
  let d1 := fst (save bind JSON_stringify now len userId gameState d) in
  snd (save bind JSON_stringify now len userId gameState d) =
    Respond 200 (SuccessJson true "Game saved successfully.") /\
  filter (fun r => user_id r = k) (user_saves d1) =
    [{| user_id := k; game_state := JSON_stringify gameState; last_saved := now |}] /\
  filter (fun r => user_id r <> k) (user_saves d1) =
    filter (fun r => user_id r <> k) (user_saves d).
Proof.
  intros Hlen Hu Hg Hk d1. subst d1.
  rewrite (save_accepted now len userId gameState k) by done. cbn [fst snd user_saves].
  split; [done|]. by apply replaced_rows.
Qed.


End SaveStoreFacts.

(** ** The save store on concrete requests *)

(** [save_load_round_trip]: the second save of "u1" is the one loaded. *)
Lemma save_load_round_trip_witness :
  (20 <= SaveStore.body_limit /\ truthy (JStr "u1") = true /\ truthy (JNum 42) = true /\
   text_engine (JStr "u1") = Some "u1" /\ scalar_stringify (JNum 42) <> "" /\
   scalar_parse (scalar_stringify (JNum 42)) = Some (JNum 42)) /\
  snd (SaveStore.load text_engine scalar_parse "u1"
         (fst (SaveStore.save text_engine scalar_stringify 7 20 (JStr "u1") (JNum 42)
                 (fst (SaveStore.save text_engine scalar_stringify 3 20 (JStr "u1") (JNum 41)
                         SaveStore.initial))))) =
    SaveStore.Respond 200 (SaveStore.SavedState (JNum 42)).
Proof.
  assert (20 <= SaveStore.body_limit) as Hlen by (unfold SaveStore.body_limit; lia).
  assert (scalar_stringify (JNum 42) <> "") as Hne by (intros [=]).
  split; [repeat split; done|].
  by destruct (save_load_round_trip text_engine scalar_stringify scalar_parse
                 7 20 "u1" "u1" (JNum 42)
                 (fst (SaveStore.save text_engine scalar_stringify 3 20 (JStr "u1") (JNum 41)
                         SaveStore.initial))
                 Hlen eq_refl eq_refl eq_refl Hne eq_refl) as [H _].
Defined.

(** [save_succeeds] with a number as [userId]. *)
Lemma save_succeeds_witness :
  (20 <= SaveStore.body_limit /\ truthy (JNum 77) = true /\ truthy (JBool true) = true /\
   text_engine (JNum 77) = Some "77") /\
  snd (SaveStore.save text_engine scalar_stringify 7 20 (JNum 77) (JBool true)
         SaveStore.initial) =
    SaveStore.Respond 200 (SaveStore.SuccessJson true "Game saved successfully.").
Proof.
  assert (20 <= SaveStore.body_limit) as Hlen by (unfold SaveStore.body_limit; lia).
  split; [repeat split; done|].
  by destruct (save_succeeds text_engine scalar_stringify 7 20 (JNum 77) (JBool true) "77"
                 SaveStore.initial Hlen eq_refl eq_refl eq_refl) as [H _].
Defined.

(** A payload of [0] is refused, though it survives serialization: nothing is
    stored, and the load that follows finds nothing. *)
Lemma falsy_payload_not_restored :
  scalar_parse (scalar_stringify (JNum 0)) = Some (JNum 0) /\
  SaveStore.save text_engine scalar_stringify 7 20 (JStr "u1") (JNum 0) SaveStore.initial =
    (SaveStore.initial,
     SaveStore.Respond 400 (SaveStore.ErrorJson "userId and gameState are required.")) /\
  snd (SaveStore.load text_engine scalar_parse "u1"
         (fst (SaveStore.save text_engine scalar_stringify 7 20 (JStr "u1") (JNum 0)
                 SaveStore.initial))) =
    SaveStore.Respond 404 (SaveStore.MessageJson "No save data found for this user.").
Proof. repeat split. Qed.

(** An empty string as payload, well within the size limit, is not saved. *)
Lemma empty_payload_refused :
  SaveStore.save text_engine scalar_stringify 7 40 (JStr "u1") (JStr "") SaveStore.initial =
    (SaveStore.initial,
     SaveStore.Respond 400 (SaveStore.ErrorJson "userId and gameState are required.")).
Proof. reflexivity. Qed.

(** ** The in-memory variant *)

Section InMemoryFacts.
Import InMemory.

Lemma get_set k e s : get k (set k e s) = Own e.
Proof. unfold get, set. cbn. by rewrite lookup_insert_eq. Qed.

Lemma includes_app_self (l : list jsval) v :
  same_value_zero v v = true -> includes (l ++ [v]) v = true.
Proof.
  intros Hv. unfold includes. rewrite existsb_app. cbn. rewrite Hv.
  by rewrite orb_true_r.
Qed.

(** The same pair a second time: nothing is recorded.  The ids are [plain],
    so that neither the property access nor the log line throws; the
    referee is a string, a number or a boolean, which [includes] finds
    again, and the referrer is no name of an inherited property. *)
Lemma in_memory_repeated_pair (a b : jsval) (s : store) :
  plain a = true -> plain b = true ->
  truthy a = true -> truthy b = true ->
  (js_to_string a ∉ object_prototype) -> same_value_zero b b = true ->
  referral a b (fst (referral a b s)) =
    (fst (referral a b s), Text 200 "Referral already recorded.").
Proof.
  intros _ _ Ha Hb Hk Hbb.
  assert (exists e, get (js_to_string a) (fst (referral a b s)) = Own e /\
                    includes (referrals e) b = true) as (e & He & Hin).
  { unfold referral. rewrite Ha, Hb. cbn [negb orb].
    destruct (get (js_to_string a) s) as [e| |] eqn:G.
    - rewrite G. destruct (includes (referrals e) b) eqn:I; cbn [fst].
      + by exists e.
      + eexists. rewrite get_set. split; [done|]. by apply includes_app_self.
    - unfold get in G. destruct (referralsDB s !! _); [done|].
      by destruct (decide _).
    - rewrite get_set. cbn [includes referrals existsb fst].
      eexists. rewrite get_set. split; [done|]. by apply (includes_app_self []). }
  unfold referral at 1. rewrite Ha, Hb. cbn [negb orb]. rewrite He, He, Hin. done.
Qed.


(** A recorded referral adds one to [rewardsToClaim] and the referee to the
    list, and [/rewards] reports both. *)
Lemma in_memory_recorded_referral (a b : jsval) (s s' : store) :
  referral a b s = (s', Text 200 "Referral recorded successfully") ->
  exists e, (get (js_to_string a) s = Own e \/
             (get (js_to_string a) s = Missing /\
              e = {| rewardsToClaim := 0; referrals := [] |})) /\
    get (js_to_string a) s' =
      Own {| rewardsToClaim := rewardsToClaim e + 1; referrals := referrals e ++ [b] |}.
Proof.
  unfold referral. destruct (_ || _); [intros [=]|].
  destruct (get (js_to_string a) s) as [e| |] eqn:G.
  - rewrite G. destruct (includes _ _); intros [= <-].
    exists e. split; [by left|]. by rewrite get_set.
  - rewrite G. intros [=].
  - rewrite get_set. cbn [includes referrals existsb]. intros [= <-].
    eexists. split; [right; done|]. by rewrite get_set.
Qed.

(** A user without an entry (and whose id is no inherited property name) is
    answered zero rewards and no referrals. *)
Lemma in_memory_unknown_user (userId : string) (s : store) :
  userId <> "" -> get userId s = Missing ->
  rewards userId s = (s, Json {| rewardsToClaim := 0; referrals := [] |}).
Proof.
  intros Hne G. unfold rewards. cbn [truthy].
  apply String.eqb_neq in Hne. by rewrite Hne, G.
Qed.

End InMemoryFacts.

(** [in_memory_repeated_pair] and [in_memory_check_is_per_referrer] on the
    empty store. *)
Lemma in_memory_repeated_pair_witness :
  (plain (JStr "alice") = true /\ plain (JStr "bob") = true /\
   truthy (JStr "alice") = true /\ truthy (JStr "bob") = true /\
   (js_to_string (JStr "alice") ∉ InMemory.object_prototype) /\
   InMemory.same_value_zero (JStr "bob") (JStr "bob") = true) /\
  snd (InMemory.referral (JStr "alice") (JStr "bob")
         (fst (InMemory.referral (JStr "alice") (JStr "bob") InMemory.initial))) =
    InMemory.Text 200 "Referral already recorded.".
Proof.
  assert (js_to_string (JStr "alice") ∉ InMemory.object_prototype) as Hk.
  { intros H. repeat (apply elem_of_cons in H as [[=]|H]). by apply elem_of_nil in H. }
  split; [done|].
  by rewrite (in_memory_repeated_pair (JStr "alice") (JStr "bob") InMemory.initial
                eq_refl eq_refl eq_refl eq_refl Hk eq_refl).
Defined.



(** The referee "bob" is recorded for "alice", then again for "carol". *)
Lemma in_memory_second_referrer_recorded :
  snd (InMemory.referral (JStr "carol") (JStr "bob")
         (fst (InMemory.referral (JStr "alice") (JStr "bob") InMemory.initial))) =
    InMemory.Text 200 "Referral recorded successfully" /\
  InMemory.referralsDB
    (fst (InMemory.referral (JStr "carol") (JStr "bob")
            (fst (InMemory.referral (JStr "alice") (JStr "bob") InMemory.initial))))
  = {[ "alice" := {| InMemory.rewardsToClaim := 1; InMemory.referrals := [JStr "bob"] |};
       "carol" := {| InMemory.rewardsToClaim := 1; InMemory.referrals := [JStr "bob"] |} ]}.
Proof. split; [vm_compute; reflexivity|]. vm_compute. reflexivity. Qed.

(** "alice" refers herself and is credited for it. *)
Lemma in_memory_self_referral_recorded :
  snd (InMemory.referral (JStr "alice") (JStr "alice") InMemory.initial) =
    InMemory.Text 200 "Referral recorded successfully" /\
  snd (InMemory.rewards "alice"
         (fst (InMemory.referral (JStr "alice") (JStr "alice") InMemory.initial))) =
    InMemory.Json {| InMemory.rewardsToClaim := 1; InMemory.referrals := [JStr "alice"] |} /\
  snd (InMemory.rewards "alice" InMemory.initial) =
    InMemory.Json {| InMemory.rewardsToClaim := 0; InMemory.referrals := [] |}.
Proof. repeat split; vm_compute; reflexivity. Qed.


(** A claim is confirmed in plain text, without a count; the same claim
    again is answered 400. *)
Lemma in_memory_repeated_claim_is_400 :
  InMemory.claim (JStr "alice")
    (fst (InMemory.referral (JStr "alice") (JStr "bob") InMemory.initial)) =
    ({| InMemory.referralsDB :=
          {[ "alice" := {| InMemory.rewardsToClaim := 0;
                           InMemory.referrals := [JStr "bob"] |} ]};
        InMemory.zeroed := [] |},
     InMemory.Text 200 "Rewards claimed successfully") /\
  snd (InMemory.claim (JStr "alice")
         (fst (InMemory.claim (JStr "alice")
                 (fst (InMemory.referral (JStr "alice") (JStr "bob") InMemory.initial))))) =
    InMemory.Text 400 "No rewards to claim".
Proof. split; vm_compute; reflexivity. Qed.

(** ** Across the revisions *)

Section Interface.

Variable ledger_bind : jsval -> option Z.
Variable save_bind : jsval -> option string.
Variable JSON_stringify : jsval -> string.
Variable JSON_parse : string -> option jsval.


Lemma claim_row_idle a (l : list Ledger.referral) :
  filter (Ledger.claimable a) l = [] -> map (Ledger.claim_row a) l = l.
Proof.
  induction l as [|r l IH]; [done|]. rewrite filter_cons.
  destruct (decide (Ledger.claimable a r)) as [Y|N]; [done|]. intros H.
  cbn [map]. rewrite (IH H). unfold Ledger.claim_row.
  by destruct (decide (Ledger.claimable a r)).
Qed.






(** Claim C10: a field that is present but falsy is treated as missing.  For
    [v] one of [0], the empty string, [false] and [null]: [/claim-rewards]
    with [userId = v] answers 400 and returns the database as it was, with
    no statement sent; so does [/save], in a body within the limit, with
    [v] as [userId] or as [gameState]; and so do [/referral] and [/claim]
    of the in-memory variant. *)
Theorem falsy_field_rejected (v : jsval) :
  v ∈ [JNum 0; JStr ""; JBool false; JNull] ->
  (forall d,
     Ledger.claim_rewards ledger_bind v d =
       (d, {| Ledger.code := 400; Ledger.json := Ledger.ErrorJson "userId is required" |})) /\
  (forall now len other d, len <= SaveStore.body_limit ->
     SaveStore.save save_bind JSON_stringify now len v other d =
       (d, SaveStore.Respond 400 (SaveStore.ErrorJson "userId and gameState are required.")) /\
     SaveStore.save save_bind JSON_stringify now len other v d =
       (d, SaveStore.Respond 400 (SaveStore.ErrorJson "userId and gameState are required."))) /\
  (forall other s,
     InMemory.referral v other s = (s, InMemory.Text 400 "Missing referrerId or refereeId") /\
     InMemory.referral other v s = (s, InMemory.Text 400 "Missing referrerId or refereeId") /\
     InMemory.claim v s = (s, InMemory.Text 400 "Missing userId")).
Proof.
  intros Hv.
  assert (truthy v = false) as Hf.
  { repeat (apply elem_of_cons in Hv as [->|Hv]; [done|]). by apply elem_of_nil in Hv. }
  split; [|split].
  - intros d. unfold Ledger.claim_rewards. by rewrite Hf.
  - intros now len other d Hlen. unfold SaveStore.save.
    rewrite (proj2 (Z.ltb_ge _ _) Hlen), Hf. cbn [negb orb]. by rewrite orb_true_r.
  - intros other s. unfold InMemory.referral, InMemory.claim. rewrite Hf.
    cbn [negb orb]. by rewrite orb_true_r.
Qed.

End Interface.

(** [falsy_field_rejected] for a claim with [userId = 0], although user 0
    has a pending record. *)
Lemma falsy_field_rejected_witness :
  (JNum 0 ∈ [JNum 0; JStr ""; JBool false; JNull]) /\
  Ledger.claim_rewards decimal_engine (JNum 0)
    (fst (Ledger.on_start decimal_engine 1 200 "0" Ledger.initial)) =
    (fst (Ledger.on_start decimal_engine 1 200 "0" Ledger.initial),
     {| Ledger.code := 400; Ledger.json := Ledger.ErrorJson "userId is required" |}).
Proof.
  assert (JNum 0 ∈ [JNum 0; JStr ""; JBool false; JNull]) as H by apply list_elem_of_here.
  split; [exact H|].
  apply (falsy_field_rejected decimal_engine text_engine scalar_stringify (JNum 0) H).
Defined.

(** * Further properties *)

(** ** The ledger over runs *)

Section LedgerRuns.

Import Ledger.

Variable bind : jsval -> option Z.

Lemma kept_refl r : kept r r.
Proof. unfold kept. tauto. Qed.

Lemma kept_trans r1 r2 r3 : kept r1 r2 -> kept r2 r3 -> kept r1 r3.
Proof. unfold kept. intros (?&?&?&?&?) (?&?&?&?&?). repeat split; try congruence. tauto. Qed.

Lemma kept_claim_row k r : kept r (claim_row k r).
Proof.
  unfold kept. destruct (claim_row_fields k r) as (?&?&?&?).
  repeat (split; [done|]). unfold claim_row. by destruct (decide _).
Qed.

(** One request keeps every row in its place and at most appends rows. *)
Lemma handle_keeps_rows rq d :
  exists old new,
    referrals (fst (handle bind rq d)) = old ++ new /\ Forall2 kept (referrals d) old.
Proof.
  destruct rq as [now b c|u|u]; cbn [handle].
  - destruct (on_start bind now b c d) as [d' o] eqn:E.
    pose proof (on_start_table bind now b c d) as T. rewrite E in T. cbn in *.
    destruct T as [[-> _]|(? & ? & _ & _ & _ & -> & _)].
    + exists (referrals d), []. rewrite app_nil_r. split; [done|].
      apply Forall_Forall2_diag, Forall_forall. intros; apply kept_refl.
    + eexists _, _. split; [done|].
      apply Forall_Forall2_diag, Forall_forall. intros; apply kept_refl.
  - destruct (my_referrals bind u d) as [d' o] eqn:E.
    pose proof (my_referrals_table bind u d) as T. rewrite E in T. cbn in *.
    exists (referrals d), []. rewrite app_nil_r. split; [done|].
    apply Forall_Forall2_diag, Forall_forall. intros; apply kept_refl.
  - destruct (claim_rewards bind u d) as [d' o] eqn:E.
    pose proof (claim_rewards_table bind u d) as T. rewrite E in T. cbn in *.
    destruct T as [[-> _]|(k & _ & _ & ->)].
    + exists (referrals d), []. rewrite app_nil_r. split; [done|].
      apply Forall_Forall2_diag, Forall_forall. intros; apply kept_refl.
    + eexists _, []. rewrite app_nil_r. split; [done|].
      apply Forall2_fmap_r, Forall_Forall2_diag, Forall_forall.
      intros; apply kept_claim_row.
Qed.

(** Records are never deleted, moved or taken back: after any requests the
    table starts with the rows it had, in their order, each with its [id],
    [referrer_id], [referred_id] and [created_at], and claimed if it was
    claimed; whatever else it holds was appended. *)
Theorem records_persist (rqs : list request) (d : db) :
  exists old new,
    referrals (fst (run bind rqs d)) = old ++ new /\ Forall2 kept (referrals d) old.
Proof.
  revert d. induction rqs as [|rq rqs IH]; intros d.
  { exists (referrals d), []. rewrite app_nil_r. split; [done|].
    apply Forall_Forall2_diag, Forall_forall. intros; apply kept_refl. }
  rewrite run_cons. cbn [fst].
  destruct (handle_keeps_rows rq d) as (old1 & new1 & E1 & F1).
  destruct (IH (fst (handle bind rq d))) as (old2 & new2 & E2 & F2).
  rewrite E1 in F2. apply Forall2_app_inv_l in F2 as (o1 & o2 & Fo1 & Fo2 & ->).
  exists o1, (o2 ++ new2). split; [by rewrite E2, app_assoc|].
  eapply Forall2_trans; [|exact F1|exact Fo1].
  intros ???; apply kept_trans.
Qed.


(** One request, for the books of [ka]: what is pending afterwards plus what
    the request claimed is what was pending plus what the request credited. *)
Lemma handle_accounting ka rq d :
  let rp := snd (handle bind rq d) in
  let d' := fst (handle bind rq d) in
  Z.of_nat (unclaimed ka d') + (if claims_for bind ka rq then claimed_count rp else 0) =
    Z.of_nat (unclaimed ka d) + (if credited bind ka rq rp then 1 else 0) /\
  invited ka d' = (invited ka d + if credited bind ka rq rp then 1 else 0)%nat.
Proof.
  intros rp d'. subst rp d'.
  destruct (claims_for bind ka rq) eqn:Hc.
  - destruct rq as [now b c|u|u]; try discriminate Hc. cbn in Hc.
    apply bool_decide_eq_true in Hc. cbn [handle].
    destruct (truthy u) eqn:Hu.
    + rewrite (claim_rewards_reply bind u ka) by done.
      cbn [fst snd credited claimed_count json]. unfold unclaimed, invited. cbn [referrals].
      rewrite unclaimed_after_update.
      rewrite filter_map_length
        by (intros r; unfold owned_by; by destruct (claim_row_fields ka r) as (_ & -> & _)).
      cbn. split; lia.
    + unfold claim_rewards. rewrite Hu. cbn. split; lia.
  - destruct (handle_counts bind ka rq d Hc) as [H1 H2]. cbn zeta in *.
    rewrite H1, H2. split; [|done].
    destruct (credited bind ka rq _); lia.
Qed.

(** Every credited referral is paid once: after any run from the empty
    database, the counts answered to the claims for [ka] and the records of
    [ka] still pending add up to the number of referrals credited to [ka],
    which is the number of records [ka] owns. *)
Theorem referrals_paid_once (rqs : list request) (ka : Z) :
  let d := fst (run bind rqs initial) in
  let rps := snd (run bind rqs initial) in
  claimed_by bind ka rqs rps + Z.of_nat (unclaimed ka d) = Z.of_nat (credits bind ka rqs rps) /\
  invited ka d = credits bind ka rqs rps.
Proof.
  cbn zeta.
  assert (forall d0,
    claimed_by bind ka rqs (snd (run bind rqs d0)) +
      Z.of_nat (unclaimed ka (fst (run bind rqs d0))) =
      Z.of_nat (unclaimed ka d0) + Z.of_nat (credits bind ka rqs (snd (run bind rqs d0))) /\
    invited ka (fst (run bind rqs d0)) =
      (invited ka d0 + credits bind ka rqs (snd (run bind rqs d0)))%nat) as G.
  { induction rqs as [|rq rqs IH]; intros d0; [cbn; split; lia|].
    rewrite run_cons. cbn [fst snd claimed_by credits].
    destruct (handle_accounting ka rq d0) as [H1 H2]. cbn zeta in *.
    destruct (IH (fst (handle bind rq d0))) as [H3 H4].
    rewrite H4, H2. split; [|lia].
    destruct (credited bind ka rq _), (claims_for bind ka rq); lia. }
  destruct (G initial) as [G1 G2]. cbn in G1, G2. split; [lia | done].
Qed.

(** A request changes the table only when it is answered with a welcome or
    with a claim of at least one record; every other reply, the 400 and 500
    among them, leaves the table as it was. *)
Theorem table_changes_only_on_success (rq : request) (d : db) :
  referrals (fst (handle bind rq d)) = referrals d \/
  (exists chat, snd (handle bind rq d) = Bot (Welcomed chat)) \/
  (exists n rw, snd (handle bind rq d) = Http {| code := 200; json := ClaimJson n rw |} /\
                0 < n).
Proof.
  destruct rq as [now b c|u|u]; cbn [handle].
  - destruct (on_start bind now b c d) as [d' o] eqn:E.
    pose proof (on_start_table bind now b c d) as T. rewrite E in T. cbn in *.
    destruct T as [[-> _]|(? & ? & _ & _ & _ & _ & ->)]; [by left|].
    right; left. by eexists.
  - destruct (my_referrals bind u d) as [d' o] eqn:E.
    pose proof (my_referrals_table bind u d) as T. rewrite E in T. cbn in *. by left.
  - destruct (claim_rewards_table bind u d) as [[H _]|(k & Hu & Hk & _)].
    + left. by destruct (claim_rewards bind u d).
    + rewrite (claim_rewards_reply bind u k) by done. cbn [fst snd referrals].
      destruct (unclaimed k d) as [|n] eqn:H0.
      * left. apply claim_row_idle. unfold unclaimed in H0. by apply nil_length_inv.
      * right; right. eexists _, _. split; [done|]. lia.
Qed.

(** What [/my-referrals] answers: 200 with [0 <= unclaimedCount <=
    friendsInvited] and 50000 money and 5 gems per unclaimed referral, or,
    when the engine refuses the id, 500. *)
Theorem stats_reply_shape (userId : string) (d : db) :
  match snd (my_referrals bind userId d) with
  | {| code := c; json := StatsJson f u r |} =>
      c = 200 /\ 0 <= u <= f /\ r = {| money := u * 50000; gems := u * 5 |} /\
      is_Some (bind (JStr userId))
  | {| code := c; json := ErrorJson _ |} => c = 500 /\ bind (JStr userId) = None
  | _ => False
  end.
Proof.
  destruct (bind (JStr userId)) as [k|] eqn:Hk.
  - rewrite (my_referrals_reply bind userId k) by done. cbn.
    split; [done|]. split; [|done].
    unfold invited, unclaimed. split; [lia|].
    apply inj_le.
    assert (forall l : list referral,
      (length (filter (claimable k) l) <= length (filter (owned_by k) l))%nat) as G.
    { induction l as [|r l IH]; [done|]. rewrite !filter_cons.
      unfold claimable, owned_by in *.
      destruct (decide (_ /\ _)) as [[? _]|], (decide (referrer_id r = k)); cbn; lia. }
    apply G.
  - unfold my_referrals, select_status. rewrite Hk. done.
Qed.

(** After a claim for [ka], [/my-referrals] shows nothing unclaimed and as
    many friends invited as before. *)
Theorem stats_after_claim (userId : jsval) (a : string) (ka : Z) (d : db) :
  truthy userId = true -> bind userId = Some ka -> bind (JStr a) = Some ka ->
  snd (my_referrals bind a (fst (claim_rewards bind userId d))) =
    {| code := 200;
       json := StatsJson (Z.of_nat (invited ka d)) 0 {| money := 0; gems := 0 |} |}.
Proof.
  intros Hu Hk Ha. rewrite (claim_rewards_reply bind userId ka) by done. cbn [fst].
  rewrite (my_referrals_reply bind a ka) by done.
  unfold invited, unclaimed. cbn [referrals].
  rewrite unclaimed_after_update.
  rewrite filter_map_length
    by (intros r; unfold owned_by; by destruct (claim_row_fields ka r) as (_ & -> & _)).
  done.
Qed.

(** The guard of [/start] compares text, the engine compares keys.  In a
    run in which no [/start] carries another spelling of the sender's own
    id (as "0100" is for the user 100 where the column is numeric), no
    record has a user as their own referrer. *)
Theorem no_self_referral_rows (rqs : list request) :
  Forall (canonical_code bind) rqs ->
  Forall (fun r => referrer_id r <> referred_id r) (referrals (fst (run bind rqs initial))).
Proof.
  assert (forall d, Forall (canonical_code bind) rqs ->
            Forall (fun r => referrer_id r <> referred_id r) (referrals d) ->
            Forall (fun r => referrer_id r <> referred_id r)
                   (referrals (fst (run bind rqs d)))) as G.
  { induction rqs as [|rq rqs IH]; intros d Hrqs Hd; [done|].
    apply Forall_cons in Hrqs as [Hcanon Hrqs].
    rewrite run_cons. cbn [fst]. apply IH; [done|].
    destruct rq as [now b c|u|u]; cbn [handle].
    - destruct (on_start_table bind now b c d)
        as [[H _]|(kr & kd & Hc & Hb & _ & H & Ho)].
      { destruct (on_start bind now b c d). cbn in *. by rewrite H. }
      assert (kr <> kd) as Hne.
      { intros ->. cbn in Hcanon. pose proof (Hcanon kd Hc Hb) as ->.
        change (decimal b) with (js_to_string (JNum b)) in Ho.
        by rewrite (on_start_self bind now b d) in Ho. }
      destruct (on_start bind now b c d). cbn in *. rewrite H.
      apply Forall_app. split; [done|]. by apply Forall_singleton.
    - destruct (my_referrals bind u d) as [d' o] eqn:E.
      pose proof (my_referrals_table bind u d) as T. rewrite E in T. cbn in *.
      by rewrite T.
    - destruct (claim_rewards bind u d) as [d' o] eqn:E.
      pose proof (claim_rewards_table bind u d) as T. rewrite E in T. cbn in *.
      destruct T as [[-> _]|(k & _ & _ & ->)]; [done|].
      apply Forall_fmap, Forall_forall. intros r Hr. cbn.
      destruct (claim_row_fields k r) as (_ & -> & -> & _).
      by apply (proj1 (Forall_forall _ _) Hd). }
  intros Hrqs. apply G; [done|]. cbn. constructor.
Qed.

End LedgerRuns.

(** [stats_after_claim] for referrer 100 with two records. *)
Lemma stats_after_claim_witness :
  (truthy (JNum 100) = true /\ decimal_engine (JNum 100) = Some 100 /\
   decimal_engine (JStr "100") = Some 100) /\
  snd (Ledger.my_referrals decimal_engine "100"
         (fst (Ledger.claim_rewards decimal_engine (JNum 100)
                 (fst (Ledger.run decimal_engine
                         [Ledger.Start 1 200 "100"; Ledger.Start 2 300 "100"]
                         Ledger.initial))))) =
    {| Ledger.code := 200;
       Ledger.json := Ledger.StatsJson 2 0 {| money := 0; gems := 0 |} |}.
Proof.
  split; [done|].
  by rewrite (stats_after_claim decimal_engine (JNum 100) "100" 100 _ eq_refl eq_refl eq_refl).
Defined.

(** [no_self_referral_rows] on a run of three users: a referral, a
    self-referral and a second code for a user who is already referred. *)
Lemma no_self_referral_rows_witness :
  let rqs := [Ledger.Start 1 200 "100"; Ledger.Start 2 100 "100";
              Ledger.ClaimRewards (JStr "100"); Ledger.Start 3 200 "300"] in
  Forall (Ledger.canonical_code decimal_engine) rqs /\
  Forall (fun r => Ledger.referrer_id r <> Ledger.referred_id r)
    (Ledger.referrals (fst (Ledger.run decimal_engine rqs Ledger.initial))).
Proof.
  intros rqs.
  assert (Forall (Ledger.canonical_code decimal_engine) rqs) as H.
  { repeat constructor; intros k [= <-]; first [done | intros [=]]. }
  split; [exact H|]. exact (no_self_referral_rows decimal_engine rqs H).
Defined.

(** ** The save store over runs *)

Section SaveStoreRuns.

Import SaveStore.

Variable bind : jsval -> option string.
Variable JSON_stringify : jsval -> string.
Variable JSON_parse : string -> option jsval.

Lemma save_run_cons rq rqs d :
  run bind JSON_stringify JSON_parse (rq :: rqs) d =
    (fst (run bind JSON_stringify JSON_parse rqs
            (fst (handle bind JSON_stringify JSON_parse rq d))),
     snd (handle bind JSON_stringify JSON_parse rq d) ::
     snd (run bind JSON_stringify JSON_parse rqs
            (fst (handle bind JSON_stringify JSON_parse rq d)))).
Proof.
  cbn [run]. destruct (handle _ _ _ rq d) as [d1 r]. cbn.
  by destruct (run _ _ _ rqs d1).
Qed.

(** What the four ways through [/save] do. *)
Lemma save_cases now len userId gameState d :
  (body_limit < len /\
   save bind JSON_stringify now len userId gameState d =
     (d, Respond 413 (ParserError "request entity too large"))) \/
  (len <= body_limit /\ (truthy userId = false \/ truthy gameState = false) /\
   save bind JSON_stringify now len userId gameState d =
     (d, Respond 400 (ErrorJson "userId and gameState are required."))) \/
  (len <= body_limit /\ truthy userId = true /\ truthy gameState = true /\
   bind userId = None /\
   save bind JSON_stringify now len userId gameState d =
     (send (InsertOrReplace userId (JSON_stringify gameState)) d,
      Respond 500 (ErrorJson "Failed to save game data."))) \/
  (exists k, len <= body_limit /\ truthy userId = true /\ truthy gameState = true /\
   bind userId = Some k /\
   save bind JSON_stringify now len userId gameState d =
     ({| user_saves := filter (fun r => user_id r <> k) (user_saves d) ++
           [{| user_id := k; game_state := JSON_stringify gameState; last_saved := now |}];
         sent := sent d ++ [InsertOrReplace userId (JSON_stringify gameState)] |},
      Respond 200 (SuccessJson true "Game saved successfully."))).
Proof.
  unfold save, insert_or_replace.
  destruct (Z.ltb_spec body_limit len) as [Hl|Hl]; [left; done|]. right.
  destruct (truthy userId) eqn:Hu; [|left; auto].
  destruct (truthy gameState) eqn:Hg; [|left; auto]. right. cbn.
  destruct (bind userId) as [k|]; [right; exists k; done | left; done].
Qed.

(** The ways through [/save]: a body over the limit is answered 413, a
    falsy field 400, a key the engine refuses 500, and in these three cases
    the table is as it was; otherwise the answer is 200. *)
Theorem save_outcomes (now len : Z) (userId gameState : jsval) (d : db) :
  let d' := fst (save bind JSON_stringify now len userId gameState d) in
  let r := snd (save bind JSON_stringify now len userId gameState d) in
  (body_limit < len /\ r = Respond 413 (ParserError "request entity too large") /\ d' = d) \/
  (len <= body_limit /\ (truthy userId = false \/ truthy gameState = false) /\
   r = Respond 400 (ErrorJson "userId and gameState are required.") /\ d' = d) \/
  (len <= body_limit /\ truthy userId = true /\ truthy gameState = true /\
   bind userId = None /\
   r = Respond 500 (ErrorJson "Failed to save game data.") /\
   user_saves d' = user_saves d) \/
  (len <= body_limit /\ truthy userId = true /\ truthy gameState = true /\
   is_Some (bind userId) /\
   r = Respond 200 (SuccessJson true "Game saved successfully.")).
Proof.
  cbn zeta.
  destruct (save_cases now len userId gameState d)
    as [(?&->)|[(?&?&->)|[(?&?&?&?&->)|(k&?&?&?&?&->)]]]; cbn [fst snd].
  - left. done.
  - right; left. done.
  - right; right; left. done.
  - right; right; right. repeat split; try done.
Qed.

(** What [/load] answers depends on the rows under the key only. *)
Lemma load_reply u k d :
  truthy (JStr u) = true -> bind (JStr u) = Some k ->
  snd (load bind JSON_parse u d) =
    match head (saved_under k d) with
    | Some r =>
        if truthy (JStr (game_state r))
        then match JSON_parse (game_state r) with
             | Some v => Respond 200 (SavedState v)
             | None => Uncaught
             end
        else Respond 404 (MessageJson "No save data found for this user.")
    | None => Respond 404 (MessageJson "No save data found for this user.")
    end.
Proof.
  intros Hu Hk. unfold load, select_game_state, saved_under. rewrite Hu, Hk.
  cbn [negb send user_saves].
  destruct (head _) as [r|]; [|done].
  destruct (truthy (JStr (game_state r))); [|done]. by destruct (JSON_parse _).
Qed.

Lemma saved_under_other k k' new (l : list user_save) :
  k' <> k -> user_id new = k ->
  filter (fun r => user_id r = k') (filter (fun r => user_id r <> k) l ++ [new]) =
  filter (fun r => user_id r = k') l.
Proof.
  intros Hne Hnew. rewrite filter_app, filter_cons.
  destruct (decide (user_id new = k')); [congruence|]. rewrite app_nil_r.
  induction l as [|r l IH]; [done|]. rewrite !filter_cons.
  destruct (decide (user_id r <> k)) as [Y|N].
  - rewrite filter_cons. destruct (decide (user_id r = k')); by rewrite IH.
  - destruct (decide (user_id r = k')); [|done]. destruct N. congruence.
Qed.

(** One request and the rows under [k]: an accepted save for [k] leaves its
    row alone there, anything else leaves them as they were. *)
Lemma handle_saved_under k rq d :
  saved_under k (fst (handle bind JSON_stringify JSON_parse rq d)) =
    match accepted bind k rq with
    | Some (now, g) => [{| user_id := k; game_state := JSON_stringify g; last_saved := now |}]
    | None => saved_under k d
    end.
Proof.
  destruct rq as [u|now len u g]; cbn [handle accepted].
  - unfold saved_under. by rewrite load_keeps_table.
  - destruct (save_cases now len u g d)
      as [(Hl&->)|[(Hl&Hf&->)|[(Hl&Hu&Hg&Hb&->)|(k'&Hl&Hu&Hg&Hb&->)]]]; cbn [fst].
    + rewrite (proj2 (Z.leb_gt _ _) Hl). done.
    + destruct Hf as [->| ->]; by rewrite ?andb_false_r.
    + rewrite Hb. rewrite bool_decide_eq_false_2 by done. by rewrite andb_false_r.
    + rewrite (proj2 (Z.leb_le _ _) Hl), Hu, Hg, Hb. cbn [andb].
      unfold saved_under. cbn [user_saves].
      destruct (decide (k' = k)) as [->|Hne].
      * rewrite bool_decide_eq_true_2 by done. apply replaced_rows.
      * rewrite bool_decide_eq_false_2 by congruence.
        by apply saved_under_other.
Qed.

Lemma run_saved_under k rqs d :
  saved_under k (fst (run bind JSON_stringify JSON_parse rqs d)) =
    match latest bind k rqs with
    | Some (now, g) => [{| user_id := k; game_state := JSON_stringify g; last_saved := now |}]
    | None => saved_under k d
    end.
Proof.
  revert d. induction rqs as [|rq rqs IH]; intros d; [done|].
  rewrite save_run_cons. cbn [fst latest]. rewrite IH.
  destruct (latest bind k rqs) as [[now g]|]; [done|].
  apply handle_saved_under.
Qed.

(** The store is a map from keys to the last accepted payload.  After any
    run from the empty store, [/load] for a user the engine reads as [k]
    answers 404 when the run has no accepted save for [k], and otherwise
    with the parsed serialization of the payload of the last one. *)
Theorem load_after_run (rqs : list request) (u k : string) :
  truthy (JStr u) = true -> bind (JStr u) = Some k ->
  snd (load bind JSON_parse u (fst (run bind JSON_stringify JSON_parse rqs initial))) =
    match latest bind k rqs with
    | Some (_, g) =>
        if truthy (JStr (JSON_stringify g))
        then match JSON_parse (JSON_stringify g) with
             | Some v => Respond 200 (SavedState v)
             | None => Uncaught
             end
        else Respond 404 (MessageJson "No save data found for this user.")
    | None => Respond 404 (MessageJson "No save data found for this user.")
    end.
Proof.
  intros Hu Hk. rewrite (load_reply u k) by done. rewrite run_saved_under.
  by destruct (latest bind k rqs) as [[now g]|].
Qed.

(** After any run from the empty store no user has two records. *)
Theorem save_keys_unique (rqs : list request) :
  NoDup (map user_id (user_saves (fst (run bind JSON_stringify JSON_parse rqs initial)))).
Proof.
  assert (forall d, NoDup (map user_id (user_saves d)) ->
            NoDup (map user_id
                     (user_saves (fst (run bind JSON_stringify JSON_parse rqs d))))) as G.
  { induction rqs as [|rq rqs IH]; intros d Hd; [done|].
    rewrite save_run_cons. cbn [fst]. apply IH.
    destruct rq as [u|now len u g]; cbn [handle].
    - by rewrite load_keeps_table.
    - by apply save_keeps_key. }
  apply G. cbn. apply NoDup_nil_2.
Qed.

(** A save for one user does not change what another user loads. *)
Theorem save_isolated (now len : Z) (userId gameState : jsval) (v kv : string) (d : db) :
  truthy (JStr v) = true -> bind (JStr v) = Some kv -> bind userId <> Some kv ->
  snd (load bind JSON_parse v (fst (save bind JSON_stringify now len userId gameState d))) =
  snd (load bind JSON_parse v d).
Proof.
  intros Hv Hk Hne. rewrite !(load_reply v kv) by done.
  pose proof (handle_saved_under kv (Save now len userId gameState) d) as H.
  cbn [handle accepted] in H. rewrite (bool_decide_eq_false_2 _ Hne), andb_false_r in H.
  by rewrite H.
Qed.

(** A save replaces: of two saves for the same key, the second accepted,
    the table keeps nothing of the first. *)
Theorem save_overwrites (now1 len1 now2 len2 : Z) (u1 g1 u2 g2 : jsval) (k : string) (d : db) :
  len2 <= body_limit -> truthy u2 = true -> truthy g2 = true ->
  bind u2 = Some k -> bind u1 = Some k ->
  user_saves (fst (save bind JSON_stringify now2 len2 u2 g2
                     (fst (save bind JSON_stringify now1 len1 u1 g1 d)))) =
  user_saves (fst (save bind JSON_stringify now2 len2 u2 g2 d)).
Proof.
  intros Hl Hu Hg Hk2 Hk1.
  rewrite !(save_accepted bind JSON_stringify now2 len2 u2 g2 k) by done. cbn [fst user_saves].
  f_equal.
  destruct (save_cases now1 len1 u1 g1 d)
    as [(?&->)|[(?&?&->)|[(?&?&?&Hb&->)|(k'&?&?&?&Hb&->)]]]; cbn [fst user_saves send];
    try done.
  assert (k' = k) as -> by congruence.
  rewrite filter_app, filter_filter_keep, filter_cons. cbn.
  destruct (decide (k <> k)); [done|]. by rewrite app_nil_r.
Qed.

(** [/load] writes nothing and invents nothing: the table is as it was, and
    a 200 carries the parsed [game_state] of a record of that user. *)
Theorem load_sound (u : string) (d : db) :
  user_saves (fst (load bind JSON_parse u d)) = user_saves d /\
  match snd (load bind JSON_parse u d) with
  | Respond 200 (SavedState v) =>
      exists r, r ∈ user_saves d /\ bind (JStr u) = Some (user_id r) /\
                JSON_parse (game_state r) = Some v
  | Respond 200 _ => False
  | _ => True
  end.
Proof.
  split; [apply load_keeps_table|].
  unfold load, select_game_state. destruct (negb _); [done|].
  destruct (bind (JStr u)) as [k|] eqn:Hk; [|done]. cbn [send user_saves].
  destruct (head _) as [r|] eqn:Hr; [|done].
  destruct (truthy (JStr (game_state r))); [|done].
  destruct (JSON_parse (game_state r)) as [v|] eqn:Hp; [|done]. cbn.
  exists r. apply head_Some_elem_of, list_elem_of_filter in Hr as [<- Hin]. done.
Qed.

End SaveStoreRuns.

(** ** The in-memory variant over runs *)

Section InMemoryRuns.

Import InMemory.

Lemma in_memory_run_cons rq rqs s :
  run (rq :: rqs) s =
    (fst (run rqs (fst (handle rq s))),
     snd (handle rq s) :: snd (run rqs (fst (handle rq s)))).
Proof.
  cbn [run]. destruct (handle rq s) as [s1 r]. cbn. by destruct (run rqs s1).
Qed.

Lemma same_value_zero_sym x y : same_value_zero x y = same_value_zero y x.
Proof.
  destruct x, y; cbn; try done.
  - by destruct b, b0.
  - apply Z.eqb_sym.
  - apply String.eqb_sym.
Qed.

Lemma distinct_snoc l v : distinct l -> includes l v = false -> distinct (l ++ [v]).
Proof.
  induction l as [|x l IH]; cbn.
  { intros _ _. done. }
  intros [Hx Hl] Hv. apply orb_false_iff in Hv as [Hxv Hv].
  split; [|by apply IH].
  unfold includes in *. rewrite existsb_app, Hx. cbn.
  by rewrite same_value_zero_sym, Hxv.
Qed.

Lemma get_own k s e : get k s = Own e -> referralsDB s !! k = Some e.
Proof.
  unfold get. destruct (referralsDB s !! k); [by intros [= ->]|].
  by destruct (decide _).
Qed.

Lemma get_missing k s : get k s = Missing -> referralsDB s !! k = None /\ (k ∉ object_prototype).
Proof.
  unfold get. destruct (referralsDB s !! k); [done|].
  by destruct (decide _).
Qed.

Lemma handle_sound rq s :
  map_Forall sound_entry (referralsDB s) ->
  map_Forall sound_entry (referralsDB (fst (handle rq s))).
Proof.
  intros Hs. destruct rq as [a b|u|u]; cbn [handle].
  - unfold referral. destruct (_ || _); [done|].
    destruct (get (js_to_string a) s) as [e| |] eqn:G.
    + rewrite G. destruct (includes (referrals e) b) eqn:I; [done|]. cbn.
      apply get_own in G. destruct (Hs _ _ G) as (Hb & Hk & Hd & _).
      apply map_Forall_insert_2; [|done]. cbn.
      unfold sound_entry. cbn. split; [rewrite length_app; cbn; lia|].
      split; [done|]. split; [by apply distinct_snoc|]. by destruct (referrals e).
    + by rewrite G.
    + rewrite get_set. cbn. apply get_missing in G as [_ Hk].
      rewrite insert_insert_eq. apply map_Forall_insert_2; [|done].
      unfold sound_entry. cbn. repeat split; try done.
  - unfold rewards. destruct (negb _); [done|]. by destruct (get u s).
  - unfold claim. destruct (negb _); [done|].
    destruct (get (js_to_string u) s) as [e| |] eqn:G; [| |done].
    + destruct (rewardsToClaim e =? 0); [done|]. cbn.
      apply get_own in G. destruct (Hs _ _ G) as (Hb & Hk & Hd & Hn).
      apply map_Forall_insert_2; [|done].
      unfold sound_entry in *. cbn. repeat split; try done; lia.
    + by destruct (inherited_zero _ s).
Qed.

Lemma run_sound rqs s :
  map_Forall sound_entry (referralsDB s) ->
  map_Forall sound_entry (referralsDB (fst (run rqs s))).
Proof.
  revert s. induction rqs as [|rq rqs IH]; intros s Hs; [done|].
  rewrite in_memory_run_cons. cbn [fst]. by apply IH, handle_sound.
Qed.

Lemma in_memory_reachable_keys rqs k e :
  referralsDB (fst (run rqs initial)) !! k = Some e -> k ∉ object_prototype.
Proof.
  intros L. assert (map_Forall sound_entry (referralsDB (fst (run rqs initial)))) as S.
  { apply run_sound. cbn. apply map_Forall_empty. }
  by destruct (S k e L) as (_ & ? & _).
Qed.

(** After any run from the empty store, every entry has between 0 and as
    many rewards to claim as it lists referrals, lists at least one referral
    and none twice, and is stored under a key that is no property name of
    [Object.prototype]. *)
Theorem in_memory_entries_sound (rqs : list request) :
  map_Forall sound_entry (referralsDB (fst (run rqs initial))).
Proof.
  apply run_sound. cbn. apply map_Forall_empty.
Qed.


(** One request and the counts of [k]. *)
Lemma handle_counts_in_memory k rq s :
  let n := if recorded k rq (snd (handle rq s)) then 1%nat else 0%nat in
  listed k (fst (handle rq s)) = (listed k s + n)%nat /\
  (claims_key k rq = false -> due k (fst (handle rq s)) = due k s + Z.of_nat n).
Proof.
  cbn zeta. unfold listed, due.
  destruct rq as [a b|u|u]; cbn [handle recorded claims_key].
  - unfold referral. destruct (_ || _); [cbn; split; [lia | intros; lia]|].
    destruct (get (js_to_string a) s) as [e| |] eqn:G.
    + rewrite G. pose proof (get_own _ _ _ G) as L.
      destruct (includes (referrals e) b); cbn [fst snd].
      * cbn. split; [lia | intros; lia].
      * cbn [Z.eqb Pos.eqb String.eqb Ascii.eqb Bool.eqb andb set referralsDB].
        case_bool_decide as E.
        -- subst k. rewrite lookup_insert_eq, L. cbn. rewrite length_app. cbn.
           split; [lia | intros; lia].
        -- rewrite lookup_insert_ne by done. split; [lia | intros; lia].
    + rewrite G. cbn. split; [lia | intros; lia].
    + rewrite get_set. apply get_missing in G as [L _].
      cbn [includes referrals existsb fst snd].
      cbn [Z.eqb Pos.eqb String.eqb Ascii.eqb Bool.eqb andb set referralsDB].
      case_bool_decide as E.
      * subst k. rewrite lookup_insert_eq, L. cbn. split; [lia | intros; lia].
      * rewrite !lookup_insert_ne by done. split; [lia | intros; lia].
  - unfold rewards. destruct (negb _); [cbn; split; [lia | intros; lia]|].
    destruct (get u s); cbn; split; try lia; intros; lia.
  - unfold claim. destruct (negb _); [cbn; split; [lia | intros; lia]|].
    destruct (get (js_to_string u) s) as [e| |] eqn:G.
    + destruct (rewardsToClaim e =? 0); [cbn; split; [lia | intros; lia]|].
      cbn [fst snd set referralsDB].
      case_bool_decide as E.
      * subst k. rewrite lookup_insert_eq, (get_own _ _ _ G). cbn. split; [lia | done].
      * rewrite lookup_insert_ne by done. split; [lia | intros; lia].
    + destruct (inherited_zero _ s); cbn; split; try lia; intros; lia.
    + cbn. split; [lia | intros; lia].
Qed.

(** After any run of requests with [plain] ids from the empty store: the
    list of [k] has as many referees as referrals of [k] were answered as
    recorded, with no entry when there was none; and as long as [k] has not
    claimed, the rewards to claim are as many. *)
Theorem in_memory_counts (rqs : list request) (k : string) :
  forallb plain_request rqs = true ->
  let s := fst (run rqs initial) in
  let n := recordings k rqs (snd (run rqs initial)) in
  match referralsDB s !! k with
  | Some e =>
      length (referrals e) = n /\
      (existsb (claims_key k) rqs = false -> rewardsToClaim e = Z.of_nat n)
  | None => n = 0%nat
  end.
Proof.
  intros _. cbn zeta.
  assert (forall s0,
    listed k (fst (run rqs s0)) = (listed k s0 + recordings k rqs (snd (run rqs s0)))%nat /\
    (existsb (claims_key k) rqs = false ->
     due k (fst (run rqs s0)) =
       due k s0 + Z.of_nat (recordings k rqs (snd (run rqs s0))))) as G.
  { induction rqs as [|rq rqs IH]; intros s0; [cbn; split; [lia | intros; lia]|].
    rewrite in_memory_run_cons. cbn [fst snd recordings existsb].
    destruct (handle_counts_in_memory k rq s0) as [H1 H2]. cbn zeta in H1, H2.
    destruct (IH (fst (handle rq s0))) as [H3 H4].
    split; [rewrite H3, H1; destruct (recorded k rq _); lia|].
    intros Hc. apply orb_false_iff in Hc as [Hc1 Hc2].
    rewrite (H4 Hc2), (H2 Hc1). destruct (recorded k rq _); lia. }
  destruct (G initial) as [G1 G2]. unfold listed, due in G1, G2.
  cbn [initial referralsDB] in G1, G2. rewrite lookup_empty in G1, G2.
  destruct (referralsDB (fst (run rqs initial)) !! k) as [e|] eqn:L.
  - split; [lia|]. intros Hc. rewrite (G2 Hc). lia.
  - lia.
Qed.


(** A claim by a [plain] user id takes no referee off any list and touches
    no entry but the one under the claimant's key. *)
Theorem in_memory_claim_frame (userId : jsval) (s : store) (k : string) :
  plain userId = true ->
  referrals <$> referralsDB (fst (claim userId s)) !! k = referrals <$> referralsDB s !! k /\
  (k <> js_to_string userId ->
   referralsDB (fst (claim userId s)) !! k = referralsDB s !! k).
Proof.
  intros _. unfold claim. destruct (negb _); [done|].
  destruct (get (js_to_string userId) s) as [e| |] eqn:G; [| |done].
  - destruct (rewardsToClaim e =? 0); [done|]. cbn [fst set referralsDB].
    destruct (decide (js_to_string userId = k)) as [<-|Hne].
    + rewrite lookup_insert_eq, (get_own _ _ _ G). done.
    + rewrite lookup_insert_ne by done. done.
  - by destruct (inherited_zero _ s).
Qed.

(** A user id that is a property name of [Object.prototype] is not an
    unknown user to this server.  In every store that requests have built,
    a referral by such an id throws, and [/rewards] sends the inherited
    member instead of zero rewards; and as long as no such claim was
    granted before, a claim by it is granted although nothing was ever
    recorded for it. *)
Theorem in_memory_inherited_names (rqs : list request) (k : string) (b : jsval) :
  (k ∈ object_prototype) -> truthy b = true ->
  let s := fst (run rqs initial) in
  referral (JStr k) b s = (s, Threw) /\
  rewards k s = (s, JsonInherited) /\
  (zeroed s = [] ->
   claim (JStr k) s =
     ({| referralsDB := referralsDB s; zeroed := [k] |},
      Text 200 "Rewards claimed successfully")).
Proof.
  intros Hk Hb s.
  assert (truthy (JStr k) = true) as Ht.
  { cbn. apply negb_true_iff, String.eqb_neq. intros ->.
    repeat (apply elem_of_cons in Hk as [[=]|Hk]). by apply elem_of_nil in Hk. }
  assert (get k s = Inherited) as G.
  { unfold get. destruct (referralsDB s !! k) as [e|] eqn:L.
    - by destruct (in_memory_reachable_keys rqs k e L).
    - by destruct (decide _). }
  split; [|split].
  - unfold referral. rewrite Ht, Hb. cbn [negb orb js_to_string]. by rewrite G, G.
  - unfold rewards. rewrite Ht. cbn [negb]. by rewrite G.
  - intros Hz. unfold claim. rewrite Ht. cbn [negb js_to_string]. rewrite G.
    unfold inherited_zero. rewrite Hz.
    rewrite bool_decide_eq_false_2; [done|].
    intros [H|H]; by apply elem_of_nil in H.
Qed.

End InMemoryRuns.

(** ** The [/start] handler of the second SQLite revision *)

Section Handlers.

Import Ledger SqliteLedger.

Variable bind : jsval -> option Z.

(** In the second SQLite revision, whose columns keep the text of an id:
    with an engine that reads different strings as different keys, a
    [/start] never adds a record of a user referring themself. *)
Theorem text_revision_no_self_referral (now b : Z) (c : string) (d : db) :
  (forall s t k, bind (JStr s) = Some k -> bind (JStr t) = Some k -> s = t) ->
  Forall (fun r => referrer_id r <> referred_id r) (referrals d) ->
  Forall (fun r => referrer_id r <> referred_id r)
         (referrals (fst (on_start_v2 bind now b c d))).
Proof.
  intros Hinj Hd. unfold on_start_v2, insert_or_ignore. cbn [js_to_string].
  destruct (String.eqb (decimal b) c) eqn:E; [done|]. apply String.eqb_neq in E.
  cbn [send referrals referrals_id_seq sent].
  destruct (bind (JStr c)) as [kr|] eqn:Hc; [|done].
  destruct (bind (JStr (decimal b))) as [kd|] eqn:Hb; [|done].
  destruct (decide _); cbn; [done|].
  apply Forall_app. split; [done|]. apply Forall_singleton. cbn.
  intros ->. destruct E. symmetry. by apply (Hinj c (decimal b) kd).
Qed.

End Handlers.

Lemma text_column_engine_injective s t k :
  text_column_engine (JStr s) = Some k -> text_column_engine (JStr t) = Some k -> s = t.
Proof.
  cbn. intros [= <-] [= H]. symmetry. by apply (inj encode).
Qed.

(** [text_revision_no_self_referral] on the empty table. *)
Lemma text_revision_no_self_referral_witness :
  ((forall s t k, text_column_engine (JStr s) = Some k -> text_column_engine (JStr t) = Some k -> s = t) /\
   Forall (fun r => Ledger.referrer_id r <> Ledger.referred_id r)
          (Ledger.referrals Ledger.initial)) /\
  Forall (fun r => Ledger.referrer_id r <> Ledger.referred_id r)
         (Ledger.referrals (fst (SqliteLedger.on_start_v2 text_column_engine 1 200 "100"
                                   Ledger.initial))).
Proof.
  assert (Forall (fun r => Ledger.referrer_id r <> Ledger.referred_id r)
                 (Ledger.referrals Ledger.initial)) as H0 by constructor.
  split; [split; [exact text_column_engine_injective | exact H0]|].
  apply (text_revision_no_self_referral text_column_engine 1 200 "100" Ledger.initial
           text_column_engine_injective H0).
Defined.

(** [load_after_run]: two saves of "u1", one of "u2" and a refused one. *)
Lemma load_after_run_witness :
  (truthy (JStr "u1") = true /\ text_engine (JStr "u1") = Some "u1") /\
  snd (SaveStore.load text_engine scalar_parse "u1"
         (fst (SaveStore.run text_engine scalar_stringify scalar_parse
                 [SaveStore.Save 1 20 (JStr "u1") (JNum 41);
                  SaveStore.Save 2 20 (JStr "u1") (JNum 42);
                  SaveStore.Save 3 20 (JStr "u2") (JNum 7);
                  SaveStore.Save 4 20 (JStr "u1") (JNum 0);
                  SaveStore.Load "u2"]
                 SaveStore.initial))) =
    SaveStore.Respond 200 (SaveStore.SavedState (JNum 42)).
Proof.
  split; [done|].
  by rewrite (load_after_run text_engine scalar_stringify scalar_parse _ "u1" "u1"
                eq_refl eq_refl).
Defined.

(** [save_isolated]: a save of "u2" between a save of "u1" and its load. *)
Lemma save_isolated_witness :
  (truthy (JStr "u1") = true /\ text_engine (JStr "u1") = Some "u1" /\
   text_engine (JStr "u2") <> Some "u1") /\
  snd (SaveStore.load text_engine scalar_parse "u1"
         (fst (SaveStore.save text_engine scalar_stringify 2 20 (JStr "u2") (JNum 7)
                 (fst (SaveStore.save text_engine scalar_stringify 1 20 (JStr "u1") (JNum 41)
                         SaveStore.initial))))) =
    SaveStore.Respond 200 (SaveStore.SavedState (JNum 41)).
Proof.
  assert (text_engine (JStr "u2") <> Some "u1") as Hne by (intros [=]).
  split; [done|].
  by rewrite (save_isolated text_engine scalar_stringify scalar_parse 2 20 (JStr "u2") (JNum 7)
                "u1" "u1" _ eq_refl eq_refl Hne).
Defined.

(** [save_overwrites]: the user 77 saved as a number, then as a string. *)
Lemma save_overwrites_witness :
  (20 <= SaveStore.body_limit /\ truthy (JStr "77") = true /\ truthy (JNum 5) = true /\
   text_engine (JStr "77") = Some "77" /\ text_engine (JNum 77) = Some "77") /\
  SaveStore.user_saves
    (fst (SaveStore.save text_engine scalar_stringify 2 20 (JStr "77") (JNum 5)
            (fst (SaveStore.save text_engine scalar_stringify 1 20 (JNum 77) (JNum 4)
                    SaveStore.initial)))) =
  [{| SaveStore.user_id := "77"; SaveStore.game_state := "5"; SaveStore.last_saved := 2 |}].
Proof.
  assert (20 <= SaveStore.body_limit) as Hl by (unfold SaveStore.body_limit; lia).
  split; [done|].
  by rewrite (save_overwrites text_engine scalar_stringify 1 20 2 20 (JNum 77) (JNum 4)
                (JStr "77") (JNum 5) "77" SaveStore.initial Hl eq_refl eq_refl eq_refl eq_refl).
Defined.

(** [in_memory_inherited_names] for "toString" after a referral. *)
Lemma in_memory_inherited_names_witness :
  (("toString" ∈ InMemory.object_prototype) /\ truthy (JStr "bob") = true) /\
  snd (InMemory.referral (JStr "toString") (JStr "bob")
         (fst (InMemory.run [InMemory.Referral (JStr "alice") (JStr "bob")]
                 InMemory.initial))) = InMemory.Threw.
Proof.
  assert ("toString" ∈ InMemory.object_prototype) as Hk.
  { unfold InMemory.object_prototype.
    repeat first [apply list_elem_of_here | apply list_elem_of_further]. }
  split; [done|].
  by rewrite (proj1 (in_memory_inherited_names
                       [InMemory.Referral (JStr "alice") (JStr "bob")] "toString" (JStr "bob")
                       Hk eq_refl)).
Defined.

(** [in_memory_counts] for "alice": two referrals recorded, one repeated,
    one by somebody else. *)
Lemma in_memory_counts_witness :
  let rqs := [InMemory.Referral (JStr "alice") (JStr "bob");
              InMemory.Referral (JStr "alice") (JNum 7);
              InMemory.Referral (JStr "alice") (JStr "bob");
              InMemory.Referral (JNum 7) (JStr "bob");
              InMemory.Claim (JNum 7)] in
  forallb InMemory.plain_request rqs = true /\
  exists e, InMemory.referralsDB (fst (InMemory.run rqs InMemory.initial)) !! "alice" = Some e /\
            length (InMemory.referrals e) = 2%nat /\ InMemory.rewardsToClaim e = 2.
Proof.
  intros rqs. split; [reflexivity|].
  pose proof (in_memory_counts rqs "alice" eq_refl) as H. cbv zeta in H.
  destruct (InMemory.referralsDB (fst (InMemory.run rqs InMemory.initial)) !! "alice")
    as [e|]; [|discriminate H].
  exists e. destruct H as [H1 H2]. split; [reflexivity|]. split; [exact H1|].
  exact (H2 eq_refl).
Defined.

(** [in_memory_claim_frame]: the claim of "alice" leaves the entry of "carol"
    as it was. *)
Lemma in_memory_claim_frame_witness :
  let s := fst (InMemory.run [InMemory.Referral (JStr "alice") (JStr "bob");
                              InMemory.Referral (JStr "carol") (JStr "bob")]
                             InMemory.initial) in
  plain (JStr "alice") = true /\
  InMemory.referralsDB (fst (InMemory.claim (JStr "alice") s)) !! "carol" =
    InMemory.referralsDB s !! "carol".
Proof.
  intros s. split; [reflexivity|].
  destruct (in_memory_claim_frame (JStr "alice") s "carol" eq_refl) as [_ H].
  apply H. discriminate.
Defined.
